(** * Genotype factorized variational autoencoder

    A shallow embedding of
    [notebooks/genotype_factorized_variational_autoencoder.ipynb]:
    the encoder, the dot-product decoder, the prior, the ELBO and
    the training loop, over the real numbers.  A rank-2 tensor is a list of
    rows; the operations of the tensor library that the notebook calls
    ([tf.reshape], [tf.layers.dense], [tf.tensordot], [tf.nn.softplus],
    [tfd.kl_divergence], ...) are written out as list functions.

    The input pipeline is the finite list of batches that the iterator
    delivers after each initialization.  Building the graph sees no batch
    (the input tensor is [iterator.get_next()]); a batch meets the graph
    only inside a run of the session, which is where a reshape can fail. *)

From Stdlib Require Import Reals Lra Lia List ZArith.
From stdpp Require Import gmap strings.
Import ListNotations.

Open Scope R_scope.

(** ** Tensors *)

Definition tensor := list (list R).

Definition nth2 (t : tensor) (i k : nat) : R := nth k (nth i t []) 0.

(** [tf.reduce_sum] of a vector. *)
Definition reduce_sum (l : list R) : R := fold_right Rplus 0 l.

Definition dot (x y : list R) : R :=
  reduce_sum (map (fun p => fst p * snd p) (combine x y)).

Fixpoint chunk (rows cols : nat) (l : list R) : tensor :=
  match rows with
  | O => []
  | S r => firstn cols l :: chunk r cols (skipn cols l)
  end.

Definition numel (t : tensor) : nat := length (concat t).

(** [tf.reshape(t, [rows, cols])]: the elements in row-major order are cut
    into [rows] rows of [cols]; it fails when the number of elements is not
    [rows * cols]. *)
Definition reshape (t : tensor) (rows cols : nat) : option tensor :=
  if Nat.eqb (numel t) (rows * cols)
  then Some (chunk rows cols (concat t))
  else None.

(** [tf.transpose] of a tensor of static shape [[rows, cols]]. *)
Definition transpose (cols : nat) (t : tensor) : tensor :=
  map (fun j => map (fun row => nth j row 0) t) (seq 0 cols).

(** [t[..., :k]] and [t[..., k:]]. *)
Definition slice_to (k : nat) (t : tensor) : tensor := map (firstn k) t.
Definition slice_from (k : nat) (t : tensor) : tensor := map (skipn k) t.

(** ** Activations *)

Definition sigmoid (x : R) : R := / (1 + exp (- x)).
Definition softplus (x : R) : R := ln (1 + exp x).
Definition linear (x : R) : R := x.

(** ** Dense layers *)

(** The variables of one [tf.layers.dense] layer: [kernel] has one row per
    input feature and one column per unit. *)
Record DenseParams := { kernel : tensor; bias : list R }.

Definition column (j : nat) (w : tensor) : list R :=
  map (fun row => nth j row 0) w.

Definition dense (p : DenseParams) (inputs : tensor) (units : nat)
    (activation : R -> R) : tensor :=
  map (fun x =>
         map (fun j => activation (dot x (column j (kernel p)) + nth j (bias p) 0))
             (seq 0 units))
      inputs.

(** The eight layers created inside the scope [encoder], in creation
    order. *)
Record EncoderParams := {
  u_dense_0 : DenseParams;
  u_dense_1 : DenseParams;
  u_dense_2 : DenseParams;
  u_dense_out : DenseParams;
  v_dense_0 : DenseParams;
  v_dense_1 : DenseParams;
  v_dense_2 : DenseParams;
  v_dense_out : DenseParams
}.

(** ** Distributions *)

(** [tfd.MultivariateNormalDiag]: one row of [loc] and of [scale_diag] per
    member of the batch. *)
Record MultivariateNormalDiag := {
  loc : tensor;
  scale_diag : tensor
}.

(** [tfd.Independent(tfd.Binomial(logits, total_count), 1)]. *)
Record FactorizedBinomial := {
  logits : tensor;
  total_count : R
}.

(** ** The model *)

(** The sample path of [make_encoder], up to the last linear layer. *)
Definition u_net (th : EncoderParams) (data : tensor) (z_dim : nat) : tensor :=
  let x := dense (u_dense_0 th) data 64 sigmoid in
  let x := dense (u_dense_1 th) x 32 sigmoid in
  let x := dense (u_dense_2 th) x 128 sigmoid in
  dense (u_dense_out th) x (z_dim * 2) linear.

(** The site path of [make_encoder], up to the last linear layer. *)
Definition v_net (th : EncoderParams) (data : tensor) (z_dim num_features : nat)
    : tensor :=
  let x_t := transpose num_features data in
  let x_t := dense (v_dense_0 th) x_t 64 sigmoid in
  let x_t := dense (v_dense_1 th) x_t 32 sigmoid in
  let x_t := dense (v_dense_2 th) x_t 16 sigmoid in
  dense (v_dense_out th) x_t (z_dim * 2) linear.

Definition scale_transform (t : tensor) : tensor :=
  map (map (fun x => softplus (x + 0.5))) t.

Definition make_encoder (th : EncoderParams) (data : tensor)
    (z_dim batch_size num_features : nat)
    : option (MultivariateNormalDiag * MultivariateNormalDiag) :=
  data ← reshape data batch_size num_features;
  let u_net := u_net th data z_dim in
  let u_loc := slice_to z_dim u_net in
  let u_scale := scale_transform (slice_from z_dim u_net) in
  let u := {| loc := u_loc; scale_diag := u_scale |} in
  let v_net := v_net th data z_dim num_features in
  let v_loc := slice_from z_dim v_net in
  let v_scale := scale_transform (slice_to z_dim v_net) in
  let v := {| loc := v_loc; scale_diag := v_scale |} in
  Some (u, v).

(** [tf.tensordot(u, v, axes=[[1], [1]])]. *)
Definition tensordot (u v : tensor) : tensor :=
  map (fun ui => map (fun vj => dot ui vj) v) u.

Definition make_decoder (u v : tensor) (batch_size num_features z_dim : nat)
    : option FactorizedBinomial :=
  let z := tensordot u v in
  z ← reshape z 1 (num_features * batch_size);
  let logits := map (map softplus) z in
  Some {| logits := logits; total_count := 2 |}.

Definition make_prior (z_dim : nat)
    : MultivariateNormalDiag * MultivariateNormalDiag :=
  let u_prior := {| loc := [repeat 0 z_dim]; scale_diag := [repeat 1 z_dim] |} in
  let v_prior := {| loc := [repeat 0 z_dim]; scale_diag := [repeat 1 z_dim] |} in
  (u_prior, v_prior).

(** [d.sample()], reparameterized: [loc + scale_diag * eps], where
    [eps i k] is the standard-normal draw for row [i], coordinate [k]. *)
Definition sample_row (eps : nat -> R) (l s : list R) : list R :=
  map (fun p => fst (snd p) + snd (snd p) * eps (fst p))
      (combine (seq 0 (length l)) (combine l s)).

Definition sample (d : MultivariateNormalDiag) (eps : nat -> nat -> R) : tensor :=
  map (fun p => sample_row (eps (fst p)) (fst (snd p)) (snd (snd p)))
      (combine (seq 0 (length (loc d))) (combine (loc d) (scale_diag d))).

(** The closed-form divergence between two diagonal Gaussians, for one row:
    the summand for one coordinate, and the sum over the coordinates. *)
Definition kl_term (p : (R * R) * (R * R)) : R :=
  let loc1 := fst (fst p) in
  let scale1 := snd (fst p) in
  let loc2 := fst (snd p) in
  let scale2 := snd (snd p) in
  (scale1 / scale2) ^ 2 + ((loc2 - loc1) / scale2) ^ 2 - 1
  + 2 * ln (scale2 / scale1).

Definition kl_row (loc1 scale1 loc2 scale2 : list R) : R :=
  0.5 * reduce_sum (map kl_term (combine (combine loc1 scale1)
                                         (combine loc2 scale2))).

Definition dist_rows (d : MultivariateNormalDiag) : list (list R * list R) :=
  combine (loc d) (scale_diag d).

(** A distribution with a single row stands for every member of the batch of
    the other one. *)
Definition broadcast {A} (n : nat) (rs : list A) : list A :=
  match rs with
  | [r] => repeat r n
  | _ => rs
  end.

(** [tfd.kl_divergence(a, b)]: one value per member of the batch. *)
Definition kl_divergence (a b : MultivariateNormalDiag) : list R :=
  let n := Nat.max (length (dist_rows a)) (length (dist_rows b)) in
  map (fun p => kl_row (fst (fst p)) (snd (fst p)) (fst (snd p)) (snd (snd p)))
      (combine (broadcast n (dist_rows a)) (broadcast n (dist_rows b))).

(** Scalars of the notebook. *)
Record Config := {
  N : nat;        (* samples *)
  M : nat;        (* sites *)
  D : nat;        (* latent dimension *)
  epochs : nat
}.

Definition batch_size (c : Config) : nat := N c.

Definition reference_config : Config :=
  {| N := 100; M := 1000; D := 2; epochs := 10 |}.

(** What one record of the input pipeline holds: [int8] genotype values. *)
Definition batch := list (list Z).

(** [tf.cast(data, tf.float32)]. *)
Definition cast_float32 (b : batch) : tensor := map (map IZR) b.

(** The scalars of the loss. *)
Record Graph := {
  u_kl : R;
  v_kl : R;
  likelihood : R;
  elbo : R
}.

(** [x, y = p] in a namespace that maps the names of the graph cell bound
    to a prior to their value: the targets are bound from left to right. *)
Definition assign_pair (x y : string)
    (p : MultivariateNormalDiag * MultivariateNormalDiag)
    (ns : gmap string MultivariateNormalDiag)
    : gmap string MultivariateNormalDiag :=
  <[y := snd p]> (<[x := fst p]> ns).

(** [u_prior, u_prior = make_prior(z_dim=D)], in scope [priors]. *)
Definition priors_scope (c : Config) (ns : gmap string MultivariateNormalDiag)
    : gmap string MultivariateNormalDiag :=
  assign_pair "u_prior" "u_prior" (make_prior (D c)) ns.

(** [u_prior, v_prior = make_prior(z_dim=D)], in scope [prior]. *)
Definition prior_scope (c : Config) (ns : gmap string MultivariateNormalDiag)
    : gmap string MultivariateNormalDiag :=
  assign_pair "u_prior" "v_prior" (make_prior (D c)) ns.

Inductive error :=
| OutOfRangeError
| InvalidArgumentError
| FailedPreconditionError
| NameError.

Inductive event :=
| Initialized
| Pulled (i : nat)
| Exhausted
| Printed (x : R)
| Summary (scalars : list (string * R)) (step : nat).

(** What the notebook takes from the tensor library and is left open here:
    [tf.lgamma]; the draws of the two [sample()] nodes (run, row,
    coordinate); the slots of the optimizer and one application of the
    training node that [tf.train.AdamOptimizer(rate).minimize(loss)] builds,
    the loss being seen as a function of the encoder's variables. *)
Class Backend := {
  lgamma : R -> R;
  noise_u : nat -> nat -> nat -> R;
  noise_v : nat -> nat -> nat -> R;
  Slots : Type;
  AdamOptimizer :
    R -> (EncoderParams -> option R) -> EncoderParams * Slots -> EncoderParams * Slots
}.

Section Training.

Context `{Backend}.

(** [tfd.Binomial(logits, total_count).log_prob(counts)] for one entry. *)
Definition binomial_log_prob (total_count logit counts : R) : R :=
  let probs := sigmoid logit in
  (counts * ln probs + (total_count - counts) * ln (1 - probs))
  - (lgamma (1 + total_count - counts) + lgamma (1 + counts)
     - lgamma (1 + total_count)).

(** [log_prob] of the factorized distribution: the entries of a row are
    summed. *)
Definition log_prob (d : FactorizedBinomial) (x : tensor) : list R :=
  map (fun p =>
         reduce_sum (map (fun q => binomial_log_prob (total_count d) (fst q) (snd q))
                         (combine (fst p) (snd p))))
      (combine (logits d) x).

(** What building the graph binds and what running it needs later. *)
Record Model := {
  model_u_prior : MultivariateNormalDiag;
  model_v_prior : MultivariateNormalDiag
}.

(** The graph cell, as far as names are bound: [prelude] is what runs in
    scope [priors] before the encoder is made.  No data is seen here: the
    input tensor stands for the batch of a later run. *)
Definition build_with
    (prelude : gmap string MultivariateNormalDiag -> gmap string MultivariateNormalDiag)
    (c : Config)
    : option Model :=
  let ns := prelude ∅ in
  let ns := prior_scope c ns in
  u_prior ← ns !! "u_prior";
  v_prior ← ns !! "v_prior";
  Some {| model_u_prior := u_prior; model_v_prior := v_prior |}.

Definition build_model (c : Config) : option Model :=
  build_with (priors_scope c) c.

(** The same cell without the first binding of the priors. *)
Definition build_model_once (c : Config) : option Model :=
  build_with (fun ns => ns) c.

(** One evaluation of the loss nodes on the batch [data], with the
    draws of run [run]. *)
Definition run_graph (c : Config) (mdl : Model) (run : nat)
    (th : EncoderParams) (data : tensor) : option Graph :=
  '(u_encoder, v_encoder) ←
     make_encoder th data (D c) (batch_size c) (M c);
  let u := sample u_encoder (noise_u run) in
  let v := sample v_encoder (noise_v run) in
  decoder_p ← make_decoder u v (batch_size c) (M c) (D c);
  let u_kl := reduce_sum (kl_divergence u_encoder (model_u_prior mdl)) in
  let v_kl := reduce_sum (kl_divergence v_encoder (model_v_prior mdl)) in
  observed ← reshape data 1 (N c * M c);
  let likelihood := reduce_sum (log_prob decoder_p observed) in
  let elbo := - u_kl - v_kl + likelihood in
  Some {| u_kl := u_kl; v_kl := v_kl; likelihood := likelihood; elbo := elbo |}.

(** The tensor [-elbo] given to [minimize]. *)
Definition loss (c : Config) (mdl : Model) (run : nat) (data : tensor)
    (th : EncoderParams) : option R :=
  g ← run_graph c mdl run th data;
  Some (- elbo g).

(** [tf.summary.merge_all()]. *)
Definition merged (g : Graph) : list (string * R) :=
  [("elbo"%string, elbo g); ("minus_u_kl"%string, - u_kl g);
   ("minus_v_kl"%string, - v_kl g); ("likelihood"%string, likelihood g)].

(** The session: the encoder's variables with the optimizer's slots, the
    position of the iterator in the data source ([None] until it is
    initialized), the number of runs so far, and what has been observed
    from outside. *)
Record Session := {
  variables : EncoderParams * Slots;
  cursor : option nat;
  runs : nat;
  trace : list event
}.

Inductive outcome :=
| Returned (s : Session)
| Raised (e : error) (s : Session).

Definition log (ev : list event) (s : Session) : Session :=
  {| variables := variables s; cursor := cursor s; runs := runs s;
     trace := trace s ++ ev |}.

(** [sess.run(iterator.initializer)]. *)
Definition run_initializer (s : Session) : Session :=
  log [Initialized]
      {| variables := variables s; cursor := Some O; runs := runs s;
         trace := trace s |}.

(** [sess.run([optimizer, merged, elbo])] followed by the two statements
    that report the result, for the data source [dataset]. *)
Definition run_step (c : Config) (mdl : Model) (dataset : list batch)
    (epoch : nat) (s : Session) : outcome :=
  match cursor s with
  | None => Raised FailedPreconditionError s
  | Some i =>
      match nth_error dataset i with
      | None => Raised OutOfRangeError (log [Exhausted] s)
      | Some b =>
          let data := cast_float32 b in
          let s1 := {| variables := variables s; cursor := Some (S i);
                       runs := S (runs s); trace := trace s ++ [Pulled i] |} in
          match run_graph c mdl (runs s) (fst (variables s)) data with
          | None => Raised InvalidArgumentError s1
          | Some g =>
              let vars := AdamOptimizer 0.001 (loss c mdl (runs s) data)
                                        (variables s) in
              Returned
                (log [Printed (elbo g); Summary (merged g) epoch]
                     {| variables := vars; cursor := cursor s1;
                        runs := runs s1; trace := trace s1 |})
          end
      end
  end.

(** [while True: try: ... except tf.errors.OutOfRangeError: break];
    [None] when [fuel] iterations were not enough. *)
Fixpoint while_true (fuel : nat) (c : Config) (mdl : Model)
    (dataset : list batch) (epoch : nat) (s : Session) : option outcome :=
  match fuel with
  | O => None
  | S fuel' =>
      match run_step c mdl dataset epoch s with
      | Returned s1 => while_true fuel' c mdl dataset epoch s1
      | Raised OutOfRangeError s1 => Some (Returned s1)
      | Raised e s1 => Some (Raised e s1)
      end
  end.

(** [for epoch in range]: the iterator is initialized, then the inner
    loop runs. *)
Fixpoint for_epoch (fuel : nat) (c : Config) (mdl : Model)
    (dataset : list batch) (range : list nat) (s : Session) : option outcome :=
  match range with
  | [] => Some (Returned s)
  | epoch :: range' =>
      match while_true fuel c mdl dataset epoch (run_initializer s) with
      | Some (Returned s1) => for_epoch fuel c mdl dataset range' s1
      | r => r
      end
  end.

(** The session after [tf.global_variables_initializer()]. *)
Definition new_session (vars : EncoderParams * Slots) : Session :=
  {| variables := vars; cursor := None; runs := O; trace := [] |}.

(** The training cell on a freshly initialized session. *)
Definition training (fuel : nat) (c : Config) (mdl : Model)
    (dataset : list batch) (vars : EncoderParams * Slots) : option outcome :=
  for_epoch fuel c mdl dataset (seq 0 (epochs c)) (new_session vars).

(** The graph cell followed by the training cell; an unbound name stops
    the notebook before any session exists. *)
Definition notebook (fuel : nat) (c : Config) (dataset : list batch)
    (vars : EncoderParams * Slots) : option (error + outcome) :=
  match build_model c with
  | None => Some (inl NameError)
  | Some mdl => option_map inr (training fuel c mdl dataset vars)
  end.

(** The notebook with the first binding of the priors removed. *)
Definition notebook_once (fuel : nat) (c : Config) (dataset : list batch)
    (vars : EncoderParams * Slots) : option (error + outcome) :=
  match build_model_once c with
  | None => Some (inl NameError)
  | Some mdl => option_map inr (training fuel c mdl dataset vars)
  end.

End Training.

(** ** The scale transform in float32 *)

(** The program computes on float32 values.  Rounding a real to the nearest
    integer, ties to the even one. *)
Definition round_half_even (r : R) : Z :=
  let f := Zfloor r in
  let d := r - IZR f in
  if Rlt_dec d (1 / 2) then f
  else if Rlt_dec (1 / 2) d then (f + 1)%Z
  else if Z.even f then f else (f + 1)%Z.

(** The exponent of the binade of [y] among the float32 values: that of
    the largest power of two below the magnitude of [y], and -126 for the
    subnormal values. *)
Definition float32_exponent (y : R) : Z :=
  Z.max (Zfloor (ln (Rabs y) / ln 2)) (-126).

(** The spacing of the float32 values around [y]: 24 significant bits. *)
Definition float32_ulp (y : R) : R := powerRZ 2 (float32_exponent y - 23).

(** The float32 value nearest to [y], ties to even; overflow to infinity is
    left out, no operation below reaches it. *)
Definition float32_round (y : R) : R :=
  IZR (round_half_even (y / float32_ulp y)) * float32_ulp y.

Definition float32_epsilon : R := powerRZ 2 (-23).

(** The threshold [log(epsilon) + 2] of the kernel of [tf.nn.softplus]. *)
Definition softplus_threshold : R :=
  float32_round (float32_round (ln float32_epsilon) + 2).

(** [tf.nn.softplus] on a float32 value, as its kernel computes it: the
    argument itself above [- threshold], [exp x] below [threshold], and
    [log(exp x + 1)] between, each operation giving the float32 nearest to
    the exact result. *)
Definition softplus_float32 (x : R) : R :=
  if Rlt_dec (- softplus_threshold) x then x
  else if Rlt_dec x softplus_threshold then float32_round (exp x)
  else float32_round (ln (float32_round (float32_round (exp x) + 1))).

(** [tf.nn.softplus(x + 0.5)] on a float32 value [x] of the last layer. *)
Definition scale_entry_float32 (x : R) : R :=
  softplus_float32 (float32_round (x + 0.5)).

Definition scale_transform_float32 (t : tensor) : tensor :=
  map (map scale_entry_float32) t.

(** ** The input pipeline *)

(** [tf.decode_raw(bytes, tf.int8)] on one byte: the byte read as a signed
    8-bit integer. *)
Definition int8_of_byte (b : Byte.byte) : Z :=
  let z := Z.of_N (Byte.to_N b) in
  if (z <? 128)%Z then z else (z - 256)%Z.

Definition decode_raw (bytes : list Byte.byte) : list Z :=
  map int8_of_byte bytes.

(** [decode_tfrecords], from the value of the feature [genotypes] of the
    parsed record on: the bytes are decoded and reshaped to
    [[1, m_variants]], which fails when their number is not [m_variants]. *)
Definition decode_tfrecords (genotypes : list Byte.byte) (m_variants : nat)
    : option (list (list Z)) :=
  let gene_vector := decode_raw genotypes in
  if Nat.eqb (length gene_vector) (1 * m_variants)
  then Some [gene_vector]
  else None.

(** The batches that an iterator over [dataset.batch(size)] delivers: each
    pull takes the next [size] elements, fewer when fewer are left, and
    signals the end when none is left. *)
Fixpoint take_batches {A} (fuel size : nat) (elements : list A) : list (list A) :=
  match fuel with
  | O => []
  | S fuel' =>
      match elements with
      | [] => []
      | _ => firstn size elements :: take_batches fuel' size (skipn size elements)
      end
  end.

(** [dataset.batch(batch_size)]; a batch size of 0 is refused. *)
Definition dataset_batch {A} (batch_size : nat) (elements : list A)
    : option (list (list A)) :=
  if Nat.eqb batch_size 0
  then None
  else Some (take_batches (length elements) batch_size elements).

(** The elements of a batch, each of shape [[1, M]], stacked; the two
    leading axes are merged, which keeps the order of the values. *)
Definition stack (elements : list (list (list Z))) : batch := concat elements.

(** [dataset.map(decode_tfrecords).batch(batch_size)] on the features of the
    records of the file, when every record decodes. *)
Definition input_pipeline (c : Config) (features : list (list Byte.byte))
    : option (list batch) :=
  records ← mapM (fun genotypes => decode_tfrecords genotypes (M c)) features;
  batches ← dataset_batch (batch_size c) records;
  Some (map stack batches).

(** ** Vocabulary of the properties *)

(** [t] has [rows] rows of [cols] entries. *)
Definition has_shape (rows cols : nat) (t : tensor) : Prop :=
  length t = rows /\ Forall (fun r => length r = cols) t.

(** A batch of the data source holds [N * M] values. *)
Definition well_shaped (c : Config) (b : batch) : Prop :=
  numel (cast_float32 b) = (N c * M c)%nat.

(** The events of the trace that concern the data source. *)
Definition is_data_event (e : event) : bool :=
  match e with
  | Initialized | Pulled _ | Exhausted => true
  | Printed _ | Summary _ _ => false
  end.

Definition data_events (evs : list event) : list event :=
  filter is_data_event evs.

(** One pass over a source of [n] batches: the iterator is initialized,
    the batches 0, ..., [n - 1] are pulled in order, and the next pull
    signals the end. *)
Definition full_pass (n : nat) : list event :=
  Initialized :: map Pulled (seq 0 n) ++ [Exhausted].

Definition full_passes (n k : nat) : list event :=
  concat (repeat (full_pass n) k).

(** Reading a trace from a position of the iterator ([None]: not
    initialized since the start or since the last end of data): every pull
    delivers the batch at the current position and advances it, an
    initialization puts it back to 0.  The result is [None] when a pull is
    out of place. *)
Fixpoint replay (cur : option nat) (evs : list event) : option (option nat) :=
  match evs with
  | [] => Some cur
  | Initialized :: evs' => replay (Some O) evs'
  | Pulled i :: evs' =>
      match cur with
      | Some j => if Nat.eqb i j then replay (Some (S i)) evs' else None
      | None => None
      end
  | Exhausted :: evs' =>
      match cur with
      | Some _ => replay None evs'
      | None => None
      end
  | _ :: evs' => replay cur evs'
  end.

Section Vocabulary.

Context `{Backend}.

Definition session_of (r : outcome) : Session :=
  match r with
  | Returned s => s
  | Raised _ s => s
  end.

(** The notebook ends normally, after [epochs] full passes. *)
Definition completes_all_epochs (c : Config) (dataset : list batch)
    (vars : EncoderParams * Slots) : Prop :=
  exists fuel s,
    notebook fuel c dataset vars = Some (inr (Returned s)) /\
    data_events (trace s) = full_passes (length dataset) (epochs c).

(** The notebook stops with an error while the graph is built, before
    any step. *)
Definition fails_at_construction (c : Config) (dataset : list batch)
    (vars : EncoderParams * Slots) : Prop :=
  forall fuel, exists e, notebook fuel c dataset vars = Some (inl e).

End Vocabulary.

(** The scalars of a summary are the four of the graph cell, by name and
    in order, and the first is the sum of the three others. *)
Definition summary_consistent (e : event) : Prop :=
  match e with
  | Summary scalars _ =>
      exists elbo minus_u_kl minus_v_kl likelihood,
        scalars = [("elbo"%string, elbo); ("minus_u_kl"%string, minus_u_kl);
                   ("minus_v_kl"%string, minus_v_kl);
                   ("likelihood"%string, likelihood)] /\
        elbo = minus_u_kl + minus_v_kl + likelihood
  | _ => True
  end.

(** The steps under which the summaries of a trace were written. *)
Fixpoint summary_steps (evs : list event) : list nat :=
  match evs with
  | [] => []
  | Summary _ step :: evs' => step :: summary_steps evs'
  | _ :: evs' => summary_steps evs'
  end.

(** The values that a trace printed. *)
Fixpoint printed (evs : list event) : list R :=
  match evs with
  | [] => []
  | Printed x :: evs' => x :: printed evs'
  | _ :: evs' => printed evs'
  end.

Section StepVocabulary.

Context `{Backend}.

(** One application of the training node: the number of runs so far and
    the variables, before and after the step on batch [b]. *)
Definition train_on (c : Config) (mdl : Model)
    (st : nat * (EncoderParams * Slots)) (b : batch)
    : nat * (EncoderParams * Slots) :=
  (S (fst st),
   AdamOptimizer 0.001 (loss c mdl (fst st) (cast_float32 b)) (snd st)).

(** One pass: the training node applied to the batches in order. *)
Definition train_pass (c : Config) (mdl : Model) (dataset : list batch)
    (st : nat * (EncoderParams * Slots)) : nat * (EncoderParams * Slots) :=
  fold_left (train_on c mdl) dataset st.

End StepVocabulary.

(** ** Example inputs *)

(** A backend without noise whose training node leaves the variables as
    they are. *)
Definition ablation_backend : Backend :=
  {| lgamma := fun _ => 0;
     noise_u := fun _ _ _ => 0;
     noise_v := fun _ _ _ => 0;
     Slots := unit;
     AdamOptimizer := fun _ _ vars => vars |}.

Definition zero_dense : DenseParams := {| kernel := []; bias := [] |}.

Definition zero_params : EncoderParams :=
  {| u_dense_0 := zero_dense; u_dense_1 := zero_dense; u_dense_2 := zero_dense;
     u_dense_out := zero_dense;
     v_dense_0 := zero_dense; v_dense_1 := zero_dense; v_dense_2 := zero_dense;
     v_dense_out := zero_dense |}.

(** Variables whose last layer of the sample path has a zero kernel and the
    bias -200 on the column of the scale. *)
Definition underflow_params : EncoderParams :=
  {| u_dense_0 := zero_dense; u_dense_1 := zero_dense; u_dense_2 := zero_dense;
     u_dense_out := {| kernel := []; bias := [0; -200] |};
     v_dense_0 := zero_dense; v_dense_1 := zero_dense; v_dense_2 := zero_dense;
     v_dense_out := zero_dense |}.

(** The variables of a session of the ablation backend. *)
Definition ablation_vars : EncoderParams * @Slots ablation_backend :=
  (zero_params, tt).

(** Two samples, one site, one latent dimension, two epochs. *)
Definition small_config : Config := {| N := 2; M := 1; D := 1; epochs := 2 |}.

(** Three records batched by two: the second batch holds one record. *)
Definition short_dataset : list batch := [[[1%Z]; [0%Z]]; [[2%Z]]].

(** Four records batched by two. *)
Definition even_dataset : list batch := [[[1%Z]; [0%Z]]; [[2%Z]; [1%Z]]].

(** The model that the graph cell builds for [small_config]. *)
Definition small_model : Model :=
  {| model_u_prior := fst (make_prior (D small_config));
     model_v_prior := snd (make_prior (D small_config)) |}.

(** A session of the ablation backend whose iterator is at the end of
    [even_dataset]. *)
Definition drained_session : @Session ablation_backend :=
  {| variables := ablation_vars;
     cursor := Some 2%nat; runs := 2%nat;
     trace := [Initialized; Pulled 0; Pulled 1] |}.

(** * Properties *)

(** ** The activations *)

Lemma softplus_pos (x : R) : 0 < softplus x.
Proof.
  unfold softplus.
  rewrite <- ln_1.
  apply ln_increasing; [lra|].
  pose proof (exp_pos x); lra.
Qed.

Lemma exp_neg_le_1 (x : R) : 0 <= x -> exp (- x) <= 1.
Proof.
  intros [Hx | <-].
  - rewrite <- exp_0. left. apply exp_increasing. lra.
  - rewrite Ropp_0, exp_0. lra.
Qed.

Lemma sigmoid_half (x : R) : 0 <= x -> 1 / 2 <= sigmoid x.
Proof.
  intros Hx. unfold sigmoid.
  pose proof (exp_neg_le_1 x Hx) as Hle.
  pose proof (exp_pos (- x)) as Hpos.
  replace (1 / 2) with (/ 2) by lra.
  apply Rinv_le_contravar; lra.
Qed.

(** ** Shapes *)

Lemma chunk_shape (rows cols : nat) (l : list R) :
  length l = (rows * cols)%nat -> has_shape rows cols (chunk rows cols l).
Proof.
  revert l. induction rows as [|r IH]; intros l Hl; simpl.
  - split; [reflexivity | constructor].
  - destruct (IH (skipn cols l)) as [Hlen Hall].
    { rewrite length_skipn. simpl in Hl. lia. }
    split; [simpl; lia|].
    constructor; [|exact Hall].
    rewrite length_firstn. simpl in Hl. lia.
Qed.

Lemma reshape_some (t : tensor) (rows cols : nat) :
  numel t = (rows * cols)%nat ->
  reshape t rows cols = Some (chunk rows cols (concat t)).
Proof.
  intros Hn. unfold reshape. rewrite Hn, Nat.eqb_refl. reflexivity.
Qed.

Lemma reshape_none (t : tensor) (rows cols : nat) :
  numel t <> (rows * cols)%nat -> reshape t rows cols = None.
Proof.
  intros Hn. unfold reshape.
  destruct (Nat.eqb_spec (numel t) (rows * cols)); [contradiction | reflexivity].
Qed.

Lemma reshape_inv (t t' : tensor) (rows cols : nat) :
  reshape t rows cols = Some t' ->
  numel t = (rows * cols)%nat /\ t' = chunk rows cols (concat t).
Proof.
  unfold reshape.
  destruct (Nat.eqb_spec (numel t) (rows * cols)); [|discriminate].
  intros [= <-]. split; [assumption | reflexivity].
Qed.

Lemma dense_shape (p : DenseParams) (inputs : tensor) (units : nat)
    (activation : R -> R) :
  has_shape (length inputs) units (dense p inputs units activation).
Proof.
  unfold dense. split.
  - apply length_map.
  - apply List.Forall_forall. intros r Hr.
    apply in_map_iff in Hr as (x & <- & _).
    rewrite length_map. apply length_seq.
Qed.

Lemma transpose_length (cols : nat) (t : tensor) :
  length (transpose cols t) = cols.
Proof. unfold transpose. rewrite length_map. apply length_seq. Qed.

Lemma u_net_shape (th : EncoderParams) (data : tensor) (z_dim : nat) :
  has_shape (length data) (z_dim * 2) (u_net th data z_dim).
Proof.
  unfold u_net.
  pose proof (dense_shape (u_dense_out th)
                (dense (u_dense_2 th)
                   (dense (u_dense_1 th) (dense (u_dense_0 th) data 64 sigmoid)
                      32 sigmoid) 128 sigmoid) (z_dim * 2) linear) as Hs.
  destruct (dense_shape (u_dense_2 th)
              (dense (u_dense_1 th) (dense (u_dense_0 th) data 64 sigmoid)
                 32 sigmoid) 128 sigmoid) as [H2 _].
  destruct (dense_shape (u_dense_1 th) (dense (u_dense_0 th) data 64 sigmoid)
              32 sigmoid) as [H1 _].
  destruct (dense_shape (u_dense_0 th) data 64 sigmoid) as [H0 _].
  rewrite H2, H1, H0 in Hs. exact Hs.
Qed.

Lemma v_net_shape (th : EncoderParams) (data : tensor) (z_dim num_features : nat) :
  has_shape num_features (z_dim * 2) (v_net th data z_dim num_features).
Proof.
  unfold v_net.
  set (x0 := transpose num_features data).
  pose proof (dense_shape (v_dense_out th)
                (dense (v_dense_2 th)
                   (dense (v_dense_1 th) (dense (v_dense_0 th) x0 64 sigmoid)
                      32 sigmoid) 16 sigmoid) (z_dim * 2) linear) as Hs.
  destruct (dense_shape (v_dense_2 th)
              (dense (v_dense_1 th) (dense (v_dense_0 th) x0 64 sigmoid)
                 32 sigmoid) 16 sigmoid) as [H2 _].
  destruct (dense_shape (v_dense_1 th) (dense (v_dense_0 th) x0 64 sigmoid)
              32 sigmoid) as [H1 _].
  destruct (dense_shape (v_dense_0 th) x0 64 sigmoid) as [H0 _].
  rewrite H2, H1, H0 in Hs. unfold x0 in Hs.
  rewrite transpose_length in Hs. exact Hs.
Qed.

(** ** Entries of slices *)





Lemma shape_nth_length (rows cols : nat) (t : tensor) (i : nat) :
  has_shape rows cols t -> (i < rows)%nat -> length (nth i t []) = cols.
Proof.
  intros [Hlen Hall] Hi.
  rewrite List.Forall_forall in Hall. apply Hall.
  apply nth_In. lia.
Qed.

Lemma slice_to_shape (rows z : nat) (t : tensor) :
  has_shape rows (z * 2) t -> has_shape rows z (slice_to z t).
Proof.
  intros [Hlen Hall]. unfold slice_to. split.
  - rewrite length_map. exact Hlen.
  - apply List.Forall_forall. intros r Hr.
    apply in_map_iff in Hr as (x & <- & Hx).
    rewrite List.Forall_forall in Hall.
    rewrite length_firstn, (Hall x Hx). lia.
Qed.

Lemma slice_from_shape (rows z : nat) (t : tensor) :
  has_shape rows (z * 2) t -> has_shape rows z (slice_from z t).
Proof.
  intros [Hlen Hall]. unfold slice_from. split.
  - rewrite length_map. exact Hlen.
  - apply List.Forall_forall. intros r Hr.
    apply in_map_iff in Hr as (x & <- & Hx).
    rewrite List.Forall_forall in Hall.
    rewrite length_skipn, (Hall x Hx). lia.
Qed.

Lemma scale_transform_shape (rows cols : nat) (t : tensor) :
  has_shape rows cols t -> has_shape rows cols (scale_transform t).
Proof.
  intros [Hlen Hall]. unfold scale_transform. split.
  - rewrite length_map. exact Hlen.
  - apply List.Forall_forall. intros r Hr.
    apply in_map_iff in Hr as (x & <- & Hx).
    rewrite List.Forall_forall in Hall.
    rewrite length_map. exact (Hall x Hx).
Qed.

Lemma scale_transform_pos (t : tensor) :
  Forall (Forall (fun s => 0 < s)) (scale_transform t).
Proof.
  unfold scale_transform.
  apply List.Forall_forall. intros r Hr.
  apply in_map_iff in Hr as (x & <- & _).
  apply List.Forall_forall. intros s Hs.
  apply in_map_iff in Hs as (y & <- & _).
  apply softplus_pos.
Qed.

Lemma make_encoder_some (th : EncoderParams) (data : tensor)
    (z_dim batch_size num_features : nat) :
  numel data = (batch_size * num_features)%nat ->
  make_encoder th data z_dim batch_size num_features =
    let data' := chunk batch_size num_features (concat data) in
    Some ({| loc := slice_to z_dim (u_net th data' z_dim);
             scale_diag := scale_transform (slice_from z_dim (u_net th data' z_dim)) |},
          {| loc := slice_from z_dim (v_net th data' z_dim num_features);
             scale_diag :=
               scale_transform (slice_to z_dim (v_net th data' z_dim num_features)) |}).
Proof.
  intros Hn. unfold make_encoder.
  rewrite (reshape_some _ _ _ Hn). reflexivity.
Qed.

Lemma make_encoder_none (th : EncoderParams) (data : tensor)
    (z_dim batch_size num_features : nat) :
  numel data <> (batch_size * num_features)%nat ->
  make_encoder th data z_dim batch_size num_features = None.
Proof.
  intros Hn. unfold make_encoder.
  rewrite (reshape_none _ _ _ Hn). reflexivity.
Qed.


(** ** Float32 rounding *)

Lemma round_half_even_cases (r : R) :
  round_half_even r = Zfloor r \/ round_half_even r = (Zfloor r + 1)%Z.
Proof.
  unfold round_half_even.
  destruct (Rlt_dec _ _); [left; reflexivity|].
  destruct (Rlt_dec _ _); [right; reflexivity|].
  destruct (Z.even _); [left | right]; reflexivity.
Qed.

Lemma round_half_even_ge (r : R) (n : Z) :
  IZR n <= r -> (n <= round_half_even r)%Z.
Proof.
  intros Hn. pose proof (Zfloor_lub n r Hn) as Hf.
  destruct (round_half_even_cases r) as [-> | ->]; lia.
Qed.

Lemma round_half_even_le (r : R) (n : Z) :
  r <= IZR n -> (round_half_even r <= n)%Z.
Proof.
  intros Hn. pose proof (Zfloor_bound r) as [Hlo Hhi].
  unfold round_half_even.
  assert (Hfn : (Zfloor r <= n)%Z) by (apply le_IZR; lra).
  destruct (Rlt_dec _ _) as [Hd|Hd]; [exact Hfn|].
  assert (Hlt : (Zfloor r < n)%Z) by (apply lt_IZR; lra).
  destruct (Rlt_dec _ _); [lia|].
  destruct (Z.even _); lia.
Qed.

Lemma round_half_even_error (r : R) :
  Rabs (IZR (round_half_even r) - r) <= 1 / 2.
Proof.
  pose proof (Zfloor_bound r) as [Hlo Hhi].
  unfold round_half_even.
  destruct (Rlt_dec _ _) as [Hd|Hd].
  - apply Rabs_le. lra.
  - destruct (Rlt_dec _ _) as [Hd'|Hd'].
    + rewrite plus_IZR. apply Rabs_le. lra.
    + destruct (Z.even _); [|rewrite plus_IZR]; apply Rabs_le; lra.
Qed.

Lemma pow2_pos (k : Z) : 0 < powerRZ 2 k.
Proof. apply powerRZ_lt. lra. Qed.

Lemma pow2_le (a b : Z) : (a <= b)%Z -> powerRZ 2 a <= powerRZ 2 b.
Proof.
  intros Hab. replace b with (a + (b - a))%Z by lia.
  rewrite powerRZ_add by lra.
  pose proof (pow2_pos a) as Ha.
  assert (H1 : 1 <= powerRZ 2 (b - a)).
  { destruct (b - a)%Z as [|p|p] eqn:Hp; try lia; simpl; [lra|].
    apply pow_R1_Rle. lra. }
  nra.
Qed.

Lemma ln_pow2 (k : Z) : ln (powerRZ 2 k) = IZR k * ln 2.
Proof.
  rewrite powerRZ_Rpower by lra. unfold Rpower. apply ln_exp.
Qed.

Lemma ln2_pos : 0 < ln 2.
Proof. rewrite <- ln_1. apply ln_increasing; lra. Qed.

Lemma ln2_lt_1 : ln 2 < 1.
Proof.
  rewrite <- (ln_exp 1). apply ln_increasing; [lra|].
  pose proof (exp_ineq1 1). lra.
Qed.

Lemma ln2_gt_half : 1 / 2 < ln 2.
Proof.
  rewrite <- (ln_exp (1 / 2)). apply ln_increasing; [apply exp_pos|].
  pose proof exp_le_3 as H3.
  pose proof (exp_pos (1 / 2)) as Hp.
  replace 1 with (1 / 2 + 1 / 2) in H3 by lra.
  rewrite exp_plus in H3. nra.
Qed.

Lemma float32_ulp_pos (y : R) : 0 < float32_ulp y.
Proof. apply pow2_pos. Qed.

Lemma float32_exponent_ge (y : R) : (-126 <= float32_exponent y)%Z.
Proof. unfold float32_exponent. lia. Qed.

Lemma float32_exponent_normal (y : R) :
  0 < Rabs y ->
  (-126 < float32_exponent y)%Z ->
  powerRZ 2 (float32_exponent y) <= Rabs y.
Proof.
  intros Hy He. unfold float32_exponent in *.
  set (f := Zfloor (ln (Rabs y) / ln 2)) in *.
  replace (Z.max f (-126)) with f by lia.
  pose proof (Zfloor_bound (ln (Rabs y) / ln 2)) as [Hlo _]. fold f in Hlo.
  pose proof ln2_pos as H2.
  assert (Hln : IZR f * ln 2 <= ln (Rabs y)).
  { apply (Rmult_le_compat_r (ln 2)) in Hlo; [|lra].
    unfold Rdiv in Hlo. rewrite Rmult_assoc, Rinv_l, Rmult_1_r in Hlo by lra.
    exact Hlo. }
  rewrite <- ln_pow2 in Hln.
  destruct (Rle_dec (powerRZ 2 f) (Rabs y)) as [|Hn]; [assumption|].
  exfalso. apply Rnot_le_lt in Hn.
  apply ln_increasing in Hn; [lra | exact Hy].
Qed.

Lemma float32_exponent_lt (y : R) (k : Z) :
  0 < Rabs y -> Rabs y < powerRZ 2 k -> (-126 < k)%Z ->
  (float32_exponent y < k)%Z.
Proof.
  intros Hy Hk Hk'. unfold float32_exponent.
  pose proof (Zfloor_bound (ln (Rabs y) / ln 2)) as [Hlo _].
  pose proof ln2_pos as H2.
  apply ln_increasing in Hk; [|exact Hy]. rewrite ln_pow2 in Hk.
  assert (Hdiv : ln (Rabs y) / ln 2 < IZR k).
  { apply (Rmult_lt_reg_r (ln 2)); [lra|].
    unfold Rdiv. rewrite Rmult_assoc, Rinv_l, Rmult_1_r by lra. exact Hk. }
  assert (Hf : (Zfloor (ln (Rabs y) / ln 2) < k)%Z) by (apply lt_IZR; lra).
  lia.
Qed.

Lemma float32_round_nonneg (y : R) : 0 <= y -> 0 <= float32_round y.
Proof.
  intros Hy. unfold float32_round.
  pose proof (float32_ulp_pos y) as Hu.
  assert (Hq : IZR 0 <= y / float32_ulp y).
  { apply Rmult_le_pos; [exact Hy | left; apply Rinv_0_lt_compat; exact Hu]. }
  apply round_half_even_ge, IZR_le in Hq.
  apply Rmult_le_pos; lra.
Qed.

Lemma float32_round_nonpos (y : R) : y <= 0 -> float32_round y <= 0.
Proof.
  intros Hy. unfold float32_round.
  pose proof (float32_ulp_pos y) as Hu.
  assert (Hq : y / float32_ulp y <= IZR 0).
  { pose proof (Rinv_0_lt_compat _ Hu). unfold Rdiv. nra. }
  apply round_half_even_le, IZR_le in Hq.
  nra.
Qed.

Lemma float32_round_error (y : R) :
  Rabs (float32_round y - y) <= float32_ulp y / 2.
Proof.
  unfold float32_round.
  pose proof (float32_ulp_pos y) as Hu.
  pose proof (round_half_even_error (y / float32_ulp y)) as He.
  replace (IZR (round_half_even (y / float32_ulp y)) * float32_ulp y - y)
    with ((IZR (round_half_even (y / float32_ulp y)) - y / float32_ulp y)
          * float32_ulp y) by (field; lra).
  rewrite Rabs_mult, (Rabs_pos_eq (float32_ulp y)) by lra.
  nra.
Qed.

Lemma float32_round_ge_pow2 (v : R) (k : Z) :
  (-149 <= k)%Z -> powerRZ 2 k <= v -> powerRZ 2 k <= float32_round v.
Proof.
  intros Hk Hv.
  pose proof (pow2_pos k) as Hkpos.
  assert (Hvpos : 0 < Rabs v) by (rewrite Rabs_pos_eq; lra).
  unfold float32_round, float32_ulp.
  set (e := float32_exponent v).
  pose proof (float32_exponent_ge v) as He. fold e in He.
  pose proof (pow2_pos (e - 23)) as Hu.
  destruct (Z_le_gt_dec (e - 23) k) as [Hek|Hek].
  - (* [2^k] is a multiple of the spacing *)
    assert (Hint : powerRZ 2 k = IZR (2 ^ (k - (e - 23))) * powerRZ 2 (e - 23)).
    { replace k with ((k - (e - 23)) + (e - 23))%Z at 1 by lia.
      rewrite powerRZ_add by lra. f_equal.
      destruct (k - (e - 23))%Z as [|p|p] eqn:Hp; try lia; [reflexivity|].
      simpl. rewrite pow_IZR. f_equal. rewrite positive_nat_Z. reflexivity. }
    assert (Hq : IZR (2 ^ (k - (e - 23))) <= v / powerRZ 2 (e - 23)).
    { apply (Rmult_le_reg_r (powerRZ 2 (e - 23))); [exact Hu|].
      unfold Rdiv. rewrite Rmult_assoc, Rinv_l, Rmult_1_r by lra.
      rewrite <- Hint. exact Hv. }
    apply round_half_even_ge, IZR_le in Hq.
    rewrite Hint. apply Rmult_le_compat_r; lra.
  - (* the binade starts above [2^k] *)
    assert (Hnorm : powerRZ 2 e <= Rabs v)
      by (apply float32_exponent_normal; [exact Hvpos | fold e; lia]).
    rewrite Rabs_pos_eq in Hnorm by lra.
    assert (Hint : powerRZ 2 e = IZR (2 ^ 23) * powerRZ 2 (e - 23)).
    { replace e with (23 + (e - 23))%Z at 1 by lia.
      rewrite powerRZ_add by lra. f_equal. simpl. lra. }
    assert (Hq : IZR (2 ^ 23) <= v / powerRZ 2 (e - 23)).
    { apply (Rmult_le_reg_r (powerRZ 2 (e - 23))); [exact Hu|].
      unfold Rdiv. rewrite Rmult_assoc, Rinv_l, Rmult_1_r by lra.
      rewrite <- Hint. exact Hnorm. }
    apply round_half_even_ge, IZR_le in Hq.
    apply Rle_trans with (powerRZ 2 e); [apply pow2_le; lia|].
    rewrite Hint. apply Rmult_le_compat_r; lra.
Qed.

Lemma float32_exponent_lub (y : R) (k : Z) :
  powerRZ 2 k <= Rabs y -> (k <= float32_exponent y)%Z.
Proof.
  intros Hk. unfold float32_exponent.
  pose proof (pow2_pos k) as Hpos.
  pose proof ln2_pos as H2.
  assert (Hln : IZR k * ln 2 <= ln (Rabs y)).
  { rewrite <- ln_pow2.
    destruct Hk as [Hlt | Heq]; [left; apply ln_increasing; assumption|].
    rewrite Heq. right. reflexivity. }
  assert (Hdiv : IZR k <= ln (Rabs y) / ln 2).
  { apply (Rmult_le_reg_r (ln 2)); [lra|].
    unfold Rdiv. rewrite Rmult_assoc, Rinv_l, Rmult_1_r by lra. exact Hln. }
  pose proof (Zfloor_lub k _ Hdiv). lia.
Qed.

Lemma float32_ulp_le (y : R) (k : Z) :
  0 < Rabs y -> Rabs y < powerRZ 2 k -> (-126 < k)%Z ->
  float32_ulp y <= powerRZ 2 (k - 24).
Proof.
  intros Hy Hk Hk'. unfold float32_ulp. apply pow2_le.
  pose proof (float32_exponent_lt y k Hy Hk Hk'). lia.
Qed.

Lemma ln_epsilon_bounds : -23 < ln float32_epsilon < - (23 / 2).
Proof.
  unfold float32_epsilon. rewrite ln_pow2.
  pose proof ln2_lt_1. pose proof ln2_gt_half. lra.
Qed.

Lemma pow2_5 : powerRZ 2 5 = 32.
Proof. simpl. lra. Qed.

Lemma Rabs_le_bounds (a b : R) : Rabs a <= b -> - b <= a <= b.
Proof. unfold Rabs. destruct (Rcase_abs a); lra. Qed.

Lemma float32_round_near (y : R) :
  y < 0 -> -32 < y -> Rabs (float32_round y - y) <= / 1048576.
Proof.
  intros Hneg Hlo.
  pose proof (float32_round_error y) as He.
  assert (Hu : float32_ulp y <= powerRZ 2 (5 - 24)).
  { apply float32_ulp_le; [| |lia].
    - rewrite Rabs_left by lra. lra.
    - rewrite Rabs_left by lra. rewrite pow2_5. lra. }
  simpl in Hu. lra.
Qed.

Lemma softplus_threshold_bounds :
  ln float32_epsilon <= softplus_threshold /\
  -22 <= softplus_threshold /\ softplus_threshold <= 0.
Proof.
  unfold softplus_threshold.
  pose proof ln_epsilon_bounds as [Hlo Hhi].
  pose proof (float32_round_near (ln float32_epsilon)) as H1.
  assert (Hr1 : Rabs (float32_round (ln float32_epsilon) - ln float32_epsilon)
                <= / 1048576) by (apply H1; lra).
  apply Rabs_le_bounds in Hr1.
  set (t1 := float32_round (ln float32_epsilon) + 2) in *.
  assert (Ht1 : t1 < 0 /\ -32 < t1) by (unfold t1; lra).
  pose proof (float32_round_near t1 (proj1 Ht1) (proj2 Ht1)) as Hr2.
  apply Rabs_le_bounds in Hr2.
  unfold t1 in *. lra.
Qed.

Lemma exp_INR (n : nat) : exp (INR n) = exp 1 ^ n.
Proof.
  induction n as [|n IH]; [simpl; apply exp_0|].
  rewrite S_INR, exp_plus, IH. simpl. ring.
Qed.

Lemma exp_94_le : exp 94 <= powerRZ 2 149.
Proof.
  replace 94 with (INR 94) by (simpl; lra). rewrite exp_INR.
  apply Rle_trans with (3 ^ 94).
  - apply pow_incr. split; [left; apply exp_pos | apply exp_le_3].
  - change 3 with (IZR 3). rewrite pow_IZR.
    change (powerRZ 2 149) with (2 ^ 149). change 2 with (IZR 2) at 1.
    rewrite pow_IZR. apply IZR_le. vm_compute. discriminate.
Qed.

Lemma pow_lt_strict (x y : R) (n : nat) :
  0 < x -> x < y -> x ^ S n < y ^ S n.
Proof.
  intros Hx Hxy. induction n as [|n IH]; [simpl; lra|].
  change (x ^ S (S n)) with (x * x ^ S n).
  change (y ^ S (S n)) with (y * y ^ S n).
  assert (0 < x ^ S n) by (apply pow_lt; exact Hx).
  nra.
Qed.

Lemma exp_150_gt : powerRZ 2 150 < exp 150.
Proof.
  replace 150 with (INR 150) by (simpl; lra). rewrite exp_INR.
  change (powerRZ 2 150) with (2 ^ 150).
  apply pow_lt_strict; [lra|]. pose proof (exp_ineq1 1). lra.
Qed.

Lemma ln_le_sub_1 (x : R) : 0 < x -> ln x <= x - 1.
Proof.
  intros Hx. pose proof (exp_ineq1_le (ln x)) as H.
  rewrite exp_ln in H by exact Hx. lra.
Qed.

Lemma ln_1_plus_ge (t : R) : 0 <= t -> t / (1 + t) <= ln (1 + t).
Proof.
  intros Ht.
  pose proof (ln_le_sub_1 (/ (1 + t))) as H.
  rewrite ln_Rinv in H by lra.
  assert (Hinv : 0 < / (1 + t)) by (apply Rinv_0_lt_compat; lra).
  specialize (H Hinv).
  replace (t / (1 + t)) with (1 - / (1 + t)) by (field; lra). lra.
Qed.

Lemma float32_round_underflow (y : R) :
  0 < y -> y < powerRZ 2 (-150) -> float32_round y = 0.
Proof.
  intros Hpos Hy.
  assert (He : float32_exponent y = (-126)%Z).
  { pose proof (float32_exponent_ge y).
    assert ((float32_exponent y < -125)%Z); [|lia].
    apply float32_exponent_lt; [rewrite Rabs_pos_eq; lra | | lia].
    rewrite Rabs_pos_eq by lra.
    apply Rlt_le_trans with (powerRZ 2 (-150)); [exact Hy | apply pow2_le; lia]. }
  unfold float32_round, float32_ulp. rewrite He.
  replace (-126 - 23)%Z with (-149)%Z by lia.
  pose proof (pow2_pos (-149)) as Hu.
  assert (Hq : 0 <= y / powerRZ 2 (-149) < 1 / 2).
  { assert (H150 : powerRZ 2 (-150) = powerRZ 2 (-149) / 2).
    { replace (-150)%Z with (-149 + -1)%Z by lia.
      rewrite powerRZ_add by lra. simpl. lra. }
    split.
    - apply Rmult_le_pos; [lra | left; apply Rinv_0_lt_compat; exact Hu].
    - apply (Rmult_lt_reg_r (powerRZ 2 (-149))); [exact Hu|].
      unfold Rdiv at 1. rewrite Rmult_assoc, Rinv_l, Rmult_1_r by lra. lra. }
  assert (Hf : Zfloor (y / powerRZ 2 (-149)) = 0%Z)
    by (apply Zfloor_eq; lra).
  unfold round_half_even. rewrite Hf.
  destruct (Rlt_dec _ _) as [|Hn]; [lra|].
  exfalso. apply Hn. lra.
Qed.

Lemma exp_underflows (y : R) : y <= -150 -> exp y < powerRZ 2 (-150).
Proof.
  intros Hy.
  change (-150)%Z with (- (150))%Z. rewrite powerRZ_neg'.
  replace y with (- (- y)) by lra. rewrite exp_Ropp.
  pose proof exp_150_gt as H150. pose proof (pow2_pos 150) as Hp.
  apply Rinv_lt_contravar.
  - apply Rmult_lt_0_compat; [exact Hp | apply exp_pos].
  - apply Rlt_le_trans with (exp 150); [exact H150|].
    destruct Hy as [Hlt | ->].
    + left. apply exp_increasing. lra.
    + right. f_equal. lra.
Qed.

Lemma exp_not_too_small (y : R) : -94 <= y -> powerRZ 2 (-149) <= exp y.
Proof.
  intros Hy.
  change (-149)%Z with (- (149))%Z. rewrite powerRZ_neg'.
  pose proof exp_94_le as H94. pose proof (exp_pos 94) as Hp.
  apply Rle_trans with (/ exp 94).
  - apply Rinv_le_contravar; assumption.
  - rewrite <- exp_Ropp.
    destruct Hy as [Hlt | <-]; [left; apply exp_increasing; lra | right; reflexivity].
Qed.

Lemma softplus_float32_nonneg (y : R) : 0 <= softplus_float32 y.
Proof.
  unfold softplus_float32.
  pose proof softplus_threshold_bounds as (_ & _ & Ht).
  destruct (Rlt_dec _ _) as [H1|H1]; [lra|].
  destruct (Rlt_dec _ _) as [H2|H2].
  - apply float32_round_nonneg. left. apply exp_pos.
  - apply float32_round_nonneg.
    assert (Hw : 0 <= float32_round (exp y))
      by (apply float32_round_nonneg; left; apply exp_pos).
    assert (Hv : powerRZ 2 0 <= float32_round (float32_round (exp y) + 1))
      by (apply float32_round_ge_pow2; [lia | simpl; lra]).
    simpl in Hv. rewrite <- ln_1.
    destruct Hv as [Hlt | <-]; [left; apply ln_increasing; lra | right; reflexivity].
Qed.

Lemma softplus_float32_underflow (y : R) : y <= -150 -> softplus_float32 y = 0.
Proof.
  intros Hy. unfold softplus_float32.
  pose proof softplus_threshold_bounds as (_ & Hlo & Hhi).
  destruct (Rlt_dec _ _) as [H1|H1]; [lra|].
  destruct (Rlt_dec _ _) as [H2|H2]; [|lra].
  apply float32_round_underflow; [apply exp_pos | apply exp_underflows; exact Hy].
Qed.

Lemma float32_round_one_plus (v : R) :
  1 + powerRZ 2 (-23) <= v -> 1 + powerRZ 2 (-23) <= float32_round v.
Proof.
  intros Hv. pose proof (pow2_pos (-23)) as H23.
  assert (H23' : powerRZ 2 (-23) <= 1) by (simpl; lra).
  destruct (Rlt_dec v 2) as [Hlt | Hge].
  - assert (He : float32_exponent v = 0%Z).
    { assert ((float32_exponent v < 1)%Z).
      { apply float32_exponent_lt; rewrite ?Rabs_pos_eq by lra; simpl; try lra; lia. }
      assert ((0 <= float32_exponent v)%Z)
        by (apply float32_exponent_lub; rewrite Rabs_pos_eq by lra; simpl; lra).
      lia. }
    unfold float32_round, float32_ulp. rewrite He.
    change (0 - 23)%Z with (-23)%Z.
    assert (Hq : IZR (2 ^ 23 + 1) <= v / powerRZ 2 (-23)).
    { apply (Rmult_le_reg_r (powerRZ 2 (-23))); [exact H23|].
      unfold Rdiv. rewrite Rmult_assoc, Rinv_l, Rmult_1_r by lra.
      apply Rle_trans with (1 + powerRZ 2 (-23)); [|exact Hv].
      rewrite plus_IZR. simpl. lra. }
    apply round_half_even_ge, IZR_le in Hq.
    apply Rle_trans with (IZR (2 ^ 23 + 1) * powerRZ 2 (-23)).
    + rewrite plus_IZR. simpl. lra.
    + apply Rmult_le_compat_r; lra.
  - assert (H2 : powerRZ 2 1 <= float32_round v)
      by (apply float32_round_ge_pow2; [lia | simpl; lra]).
    simpl in H2. lra.
Qed.

Lemma softplus_float32_pos (y : R) : -94 <= y -> 0 < softplus_float32 y.
Proof.
  intros Hy. unfold softplus_float32.
  pose proof softplus_threshold_bounds as (Heps & _ & Ht).
  destruct (Rlt_dec _ _) as [H1|H1]; [lra|].
  destruct (Rlt_dec _ _) as [H2|H2].
  - apply Rlt_le_trans with (powerRZ 2 (-149)); [apply pow2_pos|].
    apply float32_round_ge_pow2; [lia | apply exp_not_too_small; exact Hy].
  - apply Rlt_le_trans with (powerRZ 2 (-24)); [apply pow2_pos|].
    apply float32_round_ge_pow2; [lia|].
    assert (Hexp : powerRZ 2 (-23) <= exp y).
    { change (powerRZ 2 (-23)) with float32_epsilon.
      rewrite <- (exp_ln float32_epsilon) by apply pow2_pos.
      assert (Hle : ln float32_epsilon <= y) by lra.
      destruct Hle as [Hlt | <-]; [left; apply exp_increasing; exact Hlt | right; reflexivity]. }
    assert (Hw : powerRZ 2 (-23) <= float32_round (exp y))
      by (apply float32_round_ge_pow2; [lia | exact Hexp]).
    assert (Hv : 1 + powerRZ 2 (-23) <= float32_round (float32_round (exp y) + 1))
      by (apply float32_round_one_plus; lra).
    pose proof (pow2_pos (-23)) as H23.
    pose proof (ln_1_plus_ge (powerRZ 2 (-23)) (Rlt_le _ _ H23)) as Hln.
    apply Rle_trans with (ln (1 + powerRZ 2 (-23))).
    + apply Rle_trans with (powerRZ 2 (-23) / (1 + powerRZ 2 (-23))); [|exact Hln].
      simpl. lra.
    + destruct Hv as [Hlt | <-]; [left; apply ln_increasing; lra | right; reflexivity].
Qed.

Lemma float32_round_near_256 (y : R) :
  y < 0 -> -256 < y -> Rabs (float32_round y - y) <= / 131072.
Proof.
  intros Hneg Hlo.
  pose proof (float32_round_error y) as He.
  assert (Hu : float32_ulp y <= powerRZ 2 (8 - 24)).
  { apply float32_ulp_le; [| |lia].
    - rewrite Rabs_left by lra. lra.
    - rewrite Rabs_left by lra. simpl. lra. }
  simpl in Hu. lra.
Qed.

Lemma scale_entry_float32_nonneg (x : R) : 0 <= scale_entry_float32 x.
Proof. apply softplus_float32_nonneg. Qed.

Lemma scale_entry_float32_pos (x : R) : -90 <= x -> 0 < scale_entry_float32 x.
Proof.
  intros Hx. apply softplus_float32_pos.
  destruct (Rle_dec 0 (x + 0.5)) as [Hpos | Hneg].
  - pose proof (float32_round_nonneg _ Hpos). lra.
  - pose proof (float32_round_near_256 (x + 0.5)) as Hn.
    assert (Hr : Rabs (float32_round (x + 0.5) - (x + 0.5)) <= / 131072)
      by (apply Hn; lra).
    apply Rabs_le_bounds in Hr. lra.
Qed.

Lemma scale_entry_float32_underflow (x : R) :
  -255 <= x -> x <= -151 -> scale_entry_float32 x = 0.
Proof.
  intros Hlo Hhi. apply softplus_float32_underflow.
  pose proof (float32_round_near_256 (x + 0.5)) as Hn.
  assert (Hr : Rabs (float32_round (x + 0.5) - (x + 0.5)) <= / 131072)
    by (apply Hn; lra).
  apply Rabs_le_bounds in Hr. lra.
Qed.

Lemma scale_transform_float32_nonneg (t : tensor) :
  Forall (Forall (fun s => 0 <= s)) (scale_transform_float32 t).
Proof.
  unfold scale_transform_float32.
  apply List.Forall_forall. intros r Hr.
  apply in_map_iff in Hr as (x & <- & _).
  apply List.Forall_forall. intros s Hs.
  apply in_map_iff in Hs as (y & <- & _).
  apply scale_entry_float32_nonneg.
Qed.

(** C3, as amended: every entry of the scale of both posteriors is
    [softplus (x + 0.5)] of an output [x] of the last layer.  In exact
    arithmetic it is positive for every real [x], whatever the variables of
    the network and the data are.  In the float32 arithmetic of the program
    it is never negative, and it is positive when [x] is at least -80; far
    below, the exponential underflows and the entry is 0. *)
Theorem encoder_scale_positive_up_to_underflow (th : EncoderParams)
    (data : tensor) (z_dim batch_size num_features : nat) :
  numel data = (batch_size * num_features)%nat ->
  (forall x : R, 0 < softplus (x + 0.5)) /\
  (exists u v,
     make_encoder th data z_dim batch_size num_features = Some (u, v) /\
     has_shape batch_size z_dim (scale_diag u) /\
     has_shape num_features z_dim (scale_diag v) /\
     Forall (Forall (fun s => 0 < s)) (scale_diag u) /\
     Forall (Forall (fun s => 0 < s)) (scale_diag v)) /\
  (forall t, Forall (Forall (fun s => 0 <= s)) (scale_transform_float32 t)) /\
  (forall x : R, -80 <= x -> 0 < scale_entry_float32 x) /\
  (forall x : R, -255 <= x -> x <= -151 -> scale_entry_float32 x = 0).
Proof.
  intros Hn. split; [intros x; apply softplus_pos|].
  split.
  - assert (Hd : has_shape batch_size num_features
                   (chunk batch_size num_features (concat data)))
      by (apply chunk_shape; exact Hn).
    set (data' := chunk batch_size num_features (concat data)) in *.
    pose proof (u_net_shape th data' z_dim) as Hu.
    pose proof (v_net_shape th data' z_dim num_features) as Hv.
    destruct Hd as [Hrows _]. rewrite Hrows in Hu.
    eexists _, _.
    split; [apply make_encoder_some; exact Hn|].
    cbv zeta. fold data'. simpl scale_diag.
    split; [apply scale_transform_shape, slice_from_shape; exact Hu|].
    split; [apply scale_transform_shape, slice_to_shape; exact Hv|].
    split; apply scale_transform_pos.
  - split; [apply scale_transform_float32_nonneg|].
    split; [|apply scale_entry_float32_underflow].
    intros x Hx. apply scale_entry_float32_pos. lra.
Qed.

(** ** The decoder *)

Lemma concat_length_uniform (rows cols : nat) (t : tensor) :
  has_shape rows cols t -> length (concat t) = (rows * cols)%nat.
Proof.
  intros [Hlen Hall]. subst rows.
  induction Hall as [|r t Hr _ IH]; simpl; [reflexivity|].
  rewrite length_app, IH, Hr. reflexivity.
Qed.

Lemma nth_concat_uniform (cols : nat) (t : tensor) (i j : nat) (d : R) :
  Forall (fun r => length r = cols) t ->
  (i < length t)%nat -> (j < cols)%nat ->
  nth (i * cols + j) (concat t) d = nth j (nth i t []) d.
Proof.
  intros Hall. revert i.
  induction Hall as [|r t Hr _ IH]; intros i Hi Hj; simpl in Hi; [lia|].
  destruct i as [|i]; simpl.
  - apply app_nth1. lia.
  - rewrite app_nth2 by lia.
    replace (cols + i * cols + j - length r)%nat with (i * cols + j)%nat by lia.
    apply IH; lia.
Qed.

Lemma tensordot_shape (u v : tensor) :
  has_shape (length u) (length v) (tensordot u v).
Proof.
  unfold tensordot. split.
  - apply length_map.
  - apply List.Forall_forall. intros r Hr.
    apply in_map_iff in Hr as (x & <- & _).
    apply length_map.
Qed.

Lemma nth2_tensordot (u v : tensor) (i j : nat) :
  (i < length u)%nat -> (j < length v)%nat ->
  nth2 (tensordot u v) i j = dot (nth i u []) (nth j v []).
Proof.
  intros Hi Hj. unfold nth2, tensordot.
  rewrite (nth_indep _ [] (map (fun vj => dot [] vj) v))
    by (rewrite length_map; exact Hi).
  rewrite (map_nth (fun ui => map (fun vj => dot ui vj) v) u [] i).
  rewrite (nth_indep _ 0 (dot (nth i u []) [])) by (rewrite length_map; exact Hj).
  apply (map_nth (fun vj => dot (nth i u []) vj)).
Qed.

Lemma dot_sum (x y : list R) (d : nat) :
  length x = d -> length y = d ->
  dot x y = reduce_sum (map (fun k => nth k x 0 * nth k y 0) (seq 0 d)).
Proof.
  revert y d. induction x as [|a x IH]; intros y d Hx Hy; simpl in Hx; subst d.
  - reflexivity.
  - destruct y as [|b y]; [discriminate|].
    injection Hy as Hy.
    unfold dot in *. simpl.
    rewrite (IH y (length x) eq_refl Hy).
    rewrite <- seq_shift, map_map. reflexivity.
Qed.

Lemma chunk_one (cols : nat) (l : list R) :
  length l = cols -> chunk 1 cols l = [l].
Proof.
  intros Hl. simpl. rewrite firstn_all2 by lia. reflexivity.
Qed.

Lemma make_decoder_some (u v : tensor) (batch_size num_features z_dim : nat) :
  length u = batch_size -> length v = num_features ->
  make_decoder u v batch_size num_features z_dim =
    Some {| logits := [map softplus (concat (tensordot u v))]; total_count := 2 |}.
Proof.
  intros Hu Hv. unfold make_decoder.
  pose proof (concat_length_uniform _ _ _ (tensordot_shape u v)) as Hlen.
  rewrite Hu, Hv in Hlen.
  rewrite reshape_some by (unfold numel; lia).
  simpl. rewrite firstn_all2 by lia. reflexivity.
Qed.

Lemma make_decoder_inv (u v : tensor) (batch_size num_features z_dim : nat)
    (dist : FactorizedBinomial) :
  make_decoder u v batch_size num_features z_dim = Some dist ->
  dist = {| logits := [map softplus (concat (tensordot u v))]; total_count := 2 |}.
Proof.
  unfold make_decoder. intros Hd.
  destruct (reshape (tensordot u v) 1 (num_features * batch_size)) as [z|] eqn:Hz;
    [|discriminate].
  apply reshape_inv in Hz as [Hn ->].
  simpl in Hd. injection Hd as <-.
  rewrite firstn_all2 by (unfold numel in Hn; lia). reflexivity.
Qed.

(** C4: for sampled U of shape [n] by [d] and V of shape [m] by [d] the
    decoder returns a factorized Binomial with total count 2 whose logits
    are one row of [n * m] entries; the entry at position [i * m + j] is
    the softplus of the dot product of row [i] of U and row [j] of V over
    the [d] latent coordinates, and it is not negative. *)
Theorem decoder_bilinear_logits (u v : tensor) (n m d : nat) :
  has_shape n d u -> has_shape m d v ->
  exists dist flat,
    make_decoder u v n m d = Some dist /\
    logits dist = [flat] /\
    total_count dist = 2 /\
    length flat = (n * m)%nat /\
    forall i j, (i < n)%nat -> (j < m)%nat ->
      nth (i * m + j) flat 0 =
        softplus (reduce_sum (map (fun k => nth2 u i k * nth2 v j k) (seq 0 d))) /\
      0 <= nth (i * m + j) flat 0.
Proof.
  intros Hu Hv.
  pose proof Hu as [Hun Hud]. pose proof Hv as [Hvm Hvd].
  pose proof (tensordot_shape u v) as Hz. rewrite Hun, Hvm in Hz.
  pose proof (concat_length_uniform _ _ _ Hz) as Hlen.
  eexists _, _.
  split; [apply make_decoder_some; assumption|].
  split; [reflexivity|]. split; [reflexivity|].
  split; [rewrite length_map; exact Hlen|].
  intros i j Hi Hj.
  assert (Hij : (i * m + j < length (concat (tensordot u v)))%nat) by nia.
  rewrite (nth_indep _ 0 (softplus 0)) by (rewrite length_map; exact Hij).
  rewrite (map_nth softplus).
  split; [|left; apply softplus_pos].
  f_equal.
  destruct Hz as [Hzn Hzm].
  rewrite (nth_concat_uniform m) by (try assumption; lia).
  change (nth j (nth i (tensordot u v) []) 0) with (nth2 (tensordot u v) i j).
  rewrite nth2_tensordot by lia.
  apply dot_sum.
  - apply (shape_nth_length n d); assumption.
  - apply (shape_nth_length m d); assumption.
Qed.

(** C10: every logit that the decoder makes is the image of softplus and
    hence not negative, so the success probability [sigmoid logit] of each
    Binomial factor is at least 1/2, and the mean of the factor,
    [total_count * sigmoid logit] with [total_count = 2], is at least half of
    the total count. *)
Theorem decoder_dosage_at_least_half (u v : tensor) (n m d : nat)
    (dist : FactorizedBinomial) :
  make_decoder u v n m d = Some dist ->
  total_count dist = 2 /\
  Forall (Forall (fun l => 0 <= l /\ 1 / 2 <= sigmoid l /\
                           total_count dist / 2 <= total_count dist * sigmoid l))
         (logits dist).
Proof.
  intros Hd. apply make_decoder_inv in Hd. subst dist. simpl.
  split; [reflexivity|].
  constructor; [|constructor].
  apply List.Forall_forall. intros l Hl.
  apply in_map_iff in Hl as (x & <- & _).
  pose proof (softplus_pos x) as Hp.
  assert (Hs : 1 / 2 <= sigmoid (softplus x)) by (apply sigmoid_half; lra).
  repeat split; lra.
Qed.

(** ** The divergence *)

Lemma reduce_sum_zero {A} (f : A -> R) (xs : list A) :
  (forall x, In x xs -> f x = 0) -> reduce_sum (map f xs) = 0.
Proof.
  induction xs as [|x xs IH]; intros Hf; simpl; [reflexivity|].
  rewrite (Hf x) by (left; reflexivity).
  rewrite IH by (intros y Hy; apply Hf; right; exact Hy).
  lra.
Qed.

Lemma in_combine_same {A} (xs : list A) (a b : A) :
  In (a, b) (combine xs xs) -> a = b /\ In a xs.
Proof.
  induction xs as [|x xs IH]; simpl; [contradiction|].
  intros [[= <- <-] | Hin].
  - split; [reflexivity | left; reflexivity].
  - destruct (IH Hin) as [-> Hb]. split; [reflexivity | right; exact Hb].
Qed.

Lemma kl_term_self (l s : R) : 0 < s -> kl_term ((l, s), (l, s)) = 0.
Proof.
  intros Hs. unfold kl_term. simpl.
  replace (s / s) with 1 by (field; lra).
  replace ((l - l) / s) with 0 by (field; lra).
  rewrite ln_1. lra.
Qed.

Lemma kl_row_self (location scale : list R) :
  Forall (fun s => 0 < s) scale ->
  kl_row location scale location scale = 0.
Proof.
  intros Hpos. unfold kl_row.
  rewrite reduce_sum_zero; [lra|].
  intros [[l1 s1] [l2 s2]] Hin.
  apply in_combine_same in Hin as [[= <- <-] Hin].
  apply kl_term_self.
  rewrite List.Forall_forall in Hpos. apply Hpos.
  eapply in_combine_r. exact Hin.
Qed.

(** C7: for a location vector and a scale vector with positive entries, the
    closed form [0.5 * sum ((s1/s2)^2 + ((l2-l1)/s2)^2 - 1 + 2 ln (s2/s1))]
    of the divergence of the diagonal Gaussian from itself is 0, and so is
    what [kl_divergence] returns for the distribution with that row. *)
Theorem kl_self_is_zero (location scale : list R) :
  Forall (fun s => 0 < s) scale ->
  kl_row location scale location scale = 0 /\
  kl_divergence {| loc := [location]; scale_diag := [scale] |}
                {| loc := [location]; scale_diag := [scale] |} = [0].
Proof.
  intros Hpos. split; [apply kl_row_self; exact Hpos|].
  unfold kl_divergence. simpl.
  rewrite kl_row_self by exact Hpos. reflexivity.
Qed.

Lemma combine_repeat_r {A B} (l : list A) (p : B) (n : nat) :
  (length l <= n)%nat -> combine l (repeat p n) = map (fun r => (r, p)) l.
Proof.
  revert n. induction l as [|x l IH]; intros n Hn; [reflexivity|].
  destruct n as [|n]; simpl in *; [lia|].
  rewrite IH by lia. reflexivity.
Qed.

Lemma kl_divergence_prior (a : MultivariateNormalDiag) (location scale : list R) :
  kl_divergence a {| loc := [location]; scale_diag := [scale] |} =
    map (fun row => kl_row (fst row) (snd row) location scale) (dist_rows a).
Proof.
  unfold kl_divergence.
  change (dist_rows {| loc := [location]; scale_diag := [scale] |})
    with [(location, scale)].
  set (rs := dist_rows a).
  assert (Hb : broadcast (Nat.max (length rs) (length [(location, scale)])) rs = rs).
  { destruct rs as [|r [|r' rs']]; reflexivity. }
  rewrite Hb. unfold broadcast.
  rewrite combine_repeat_r by lia.
  rewrite map_map. reflexivity.
Qed.

Lemma sample_length (d : MultivariateNormalDiag) (eps : nat -> nat -> R) (n : nat) :
  length (loc d) = n -> length (scale_diag d) = n -> length (sample d eps) = n.
Proof.
  intros Hl Hs. unfold sample.
  rewrite length_map, !length_combine, length_seq. lia.
Qed.

(** ** The graph *)

Section GraphProperties.

Context `{Backend}.

Lemma build_with_some
    (prelude : gmap string MultivariateNormalDiag -> gmap string MultivariateNormalDiag)
    (c : Config) :
  build_with prelude c =
    Some {| model_u_prior := fst (make_prior (D c));
            model_v_prior := snd (make_prior (D c)) |}.
Proof.
  unfold build_with, prior_scope, assign_pair.
  assert (Hne : "v_prior"%string <> "u_prior"%string) by discriminate.
  rewrite (lookup_insert_ne _ _ _ _ Hne).
  rewrite lookup_insert_eq. simpl.
  rewrite lookup_insert_eq. reflexivity.
Qed.

Lemma prior_scope_overrides (c : Config) (ns : gmap string MultivariateNormalDiag) :
  prior_scope c (priors_scope c ns) = prior_scope c ns.
Proof.
  unfold prior_scope, priors_scope, assign_pair.
  rewrite !insert_insert_eq. reflexivity.
Qed.

Lemma encoder_rows (th : EncoderParams) (data : tensor)
    (z_dim batch_size num_features : nat)
    (u v : MultivariateNormalDiag) :
  make_encoder th data z_dim batch_size num_features = Some (u, v) ->
  (length (loc u) = batch_size /\ length (scale_diag u) = batch_size) /\
  (length (loc v) = num_features /\ length (scale_diag v) = num_features).
Proof.
  unfold make_encoder. intros He.
  destruct (reshape data batch_size num_features) as [data'|] eqn:Hr;
    [|discriminate].
  apply reshape_inv in Hr as [Hn ->].
  set (data' := chunk batch_size num_features (concat data)) in *.
  destruct (chunk_shape batch_size num_features (concat data) Hn) as [Hrows _].
  fold data' in Hrows.
  destruct (u_net_shape th data' z_dim) as [Hu _].
  destruct (v_net_shape th data' z_dim num_features) as [Hv _].
  simpl in He. injection He as <- <-. simpl.
  unfold scale_transform, slice_to, slice_from.
  rewrite !length_map. lia.
Qed.

Lemma run_graph_some (c : Config) (mdl : Model) (run : nat)
    (th : EncoderParams) (data : tensor) :
  numel data = (N c * M c)%nat ->
  exists u_encoder v_encoder decoder_p,
    make_encoder th data (D c) (batch_size c) (M c) = Some (u_encoder, v_encoder) /\
    make_decoder (sample u_encoder (noise_u run)) (sample v_encoder (noise_v run))
                 (batch_size c) (M c) (D c) = Some decoder_p /\
    run_graph c mdl run th data =
      let u_kl := reduce_sum (kl_divergence u_encoder (model_u_prior mdl)) in
      let v_kl := reduce_sum (kl_divergence v_encoder (model_v_prior mdl)) in
      let likelihood := reduce_sum (log_prob decoder_p [concat data]) in
      Some {| u_kl := u_kl; v_kl := v_kl; likelihood := likelihood;
              elbo := - u_kl - v_kl + likelihood |}.
Proof.
  intros Hn.
  pose proof (make_encoder_some th data (D c) (batch_size c) (M c) Hn) as He.
  cbv zeta in He.
  match type of He with _ = Some (?u, ?v) =>
    set (u_encoder := u) in *; set (v_encoder := v) in *
  end.
  destruct (encoder_rows _ _ _ _ _ _ _ He) as [[Hul Hus] [Hvl Hvs]].
  exists u_encoder, v_encoder.
  eexists. split; [exact He|].
  split.
  - apply make_decoder_some; apply sample_length; assumption.
  - unfold run_graph. rewrite He. simpl.
    rewrite make_decoder_some by (apply sample_length; assumption).
    simpl.
    rewrite reshape_some by lia.
    rewrite chunk_one by exact Hn. reflexivity.
Qed.

Lemma run_graph_none (c : Config) (mdl : Model) (run : nat)
    (th : EncoderParams) (data : tensor) :
  numel data <> (batch_size c * M c)%nat ->
  run_graph c mdl run th data = None.
Proof.
  intros Hn. unfold run_graph.
  rewrite make_encoder_none by exact Hn. reflexivity.
Qed.

End GraphProperties.

Section ObjectiveProperties.

Context `{Backend}.

Lemma loss_is_minus_elbo (c : Config) (mdl : Model) (run : nat) (data : tensor)
    (th : EncoderParams) :
  loss c mdl run data th =
    option_map (fun g => - elbo g) (run_graph c mdl run th data).
Proof.
  unfold loss. destruct (run_graph c mdl run th data); reflexivity.
Qed.

Lemma run_step_pull (c : Config) (mdl : Model) (dataset : list batch)
    (epoch : nat) (s : Session) (i : nat) (b : batch) (g : Graph) :
  cursor s = Some i ->
  nth_error dataset i = Some b ->
  run_graph c mdl (runs s) (fst (variables s)) (cast_float32 b) = Some g ->
  run_step c mdl dataset epoch s =
    Returned
      {| variables := AdamOptimizer 0.001 (loss c mdl (runs s) (cast_float32 b))
                                    (variables s);
         cursor := Some (S i);
         runs := S (runs s);
         trace := (trace s ++ [Pulled i])
                  ++ [Printed (elbo g); Summary (merged g) epoch] |}.
Proof.
  intros Hc Hb Hg. unfold run_step. rewrite Hc, Hb, Hg. reflexivity.
Qed.

Lemma run_step_exhausted (c : Config) (mdl : Model) (dataset : list batch)
    (epoch : nat) (s : Session) (i : nat) :
  cursor s = Some i ->
  nth_error dataset i = None ->
  run_step c mdl dataset epoch s = Raised OutOfRangeError (log [Exhausted] s).
Proof.
  intros Hc Hb. unfold run_step. rewrite Hc, Hb. reflexivity.
Qed.

Lemma run_step_mismatch (c : Config) (mdl : Model) (dataset : list batch)
    (epoch : nat) (s : Session) (i : nat) (b : batch) :
  cursor s = Some i ->
  nth_error dataset i = Some b ->
  numel (cast_float32 b) <> (batch_size c * M c)%nat ->
  run_step c mdl dataset epoch s =
    Raised InvalidArgumentError
      {| variables := variables s; cursor := Some (S i); runs := S (runs s);
         trace := trace s ++ [Pulled i] |}.
Proof.
  intros Hc Hb Hn. unfold run_step.
  rewrite Hc, Hb, run_graph_none by exact Hn. reflexivity.
Qed.

(** C1: on a batch of [N * M] values the loss nodes evaluate to
    [elbo = - u_kl - v_kl + likelihood], where [u_kl] is the sum over the
    [N] rows of the posterior of U of the divergence of the row from the
    prior with location 0 and scale 1, [v_kl] is the same sum over the [M]
    rows of the posterior of V, and [likelihood] is the sum over the
    [N * M] entries of the Binomial log-probability, with total count 2
    and the decoder's logit, of the observed value; the step gives the
    optimizer the function that maps the encoder's variables to [- elbo],
    with learning rate 0.001. *)
Theorem elbo_objective (c : Config) (dataset : list batch) (epoch : nat)
    (s : Session) (i : nat) (b : batch) :
  cursor s = Some i ->
  nth_error dataset i = Some b ->
  well_shaped c b ->
  let data := cast_float32 b in
  let th := fst (variables s) in
  exists mdl u_encoder v_encoder decoder_p flat g s',
    build_model c = Some mdl /\
    make_encoder th data (D c) (batch_size c) (M c) = Some (u_encoder, v_encoder) /\
    length (dist_rows u_encoder) = N c /\
    length (dist_rows v_encoder) = M c /\
    make_decoder (sample u_encoder (noise_u (runs s)))
                 (sample v_encoder (noise_v (runs s)))
                 (batch_size c) (M c) (D c) = Some decoder_p /\
    logits decoder_p = [flat] /\
    run_graph c mdl (runs s) th data = Some g /\
    u_kl g =
      reduce_sum (map (fun row => kl_row (fst row) (snd row)
                                         (repeat 0 (D c)) (repeat 1 (D c)))
                      (dist_rows u_encoder)) /\
    v_kl g =
      reduce_sum (map (fun row => kl_row (fst row) (snd row)
                                         (repeat 0 (D c)) (repeat 1 (D c)))
                      (dist_rows v_encoder)) /\
    likelihood g =
      reduce_sum (map (fun q => binomial_log_prob 2 (fst q) (snd q))
                      (combine flat (concat data))) /\
    elbo g = - u_kl g - v_kl g + likelihood g /\
    run_step c mdl dataset epoch s = Returned s' /\
    variables s' = AdamOptimizer 0.001 (loss c mdl (runs s) data) (variables s) /\
    forall th', loss c mdl (runs s) data th' =
                option_map (fun g' => - elbo g') (run_graph c mdl (runs s) th' data).
Proof.
  intros Hc Hb Hw data th.
  set (mdl := {| model_u_prior := fst (make_prior (D c));
                 model_v_prior := snd (make_prior (D c)) |}).
  destruct (run_graph_some c mdl (runs s) th data Hw)
    as (u_encoder & v_encoder & decoder_p & He & Hd & Hg).
  destruct (encoder_rows _ _ _ _ _ _ _ He) as [[Hul Hus] [Hvl Hvs]].
  pose proof (make_decoder_inv _ _ _ _ _ _ Hd) as Hdec.
  cbv zeta in Hg.
  exists mdl, u_encoder, v_encoder, decoder_p.
  eexists _, _, _.
  split; [apply build_with_some|].
  split; [exact He|].
  split; [unfold dist_rows; rewrite length_combine; unfold batch_size in *; lia|].
  split; [unfold dist_rows; rewrite length_combine; lia|].
  split; [exact Hd|].
  split; [rewrite Hdec; reflexivity|].
  split; [exact Hg|].
  split; [simpl; apply f_equal, kl_divergence_prior|].
  split; [simpl; apply f_equal, kl_divergence_prior|].
  split.
  { simpl. rewrite Hdec. unfold log_prob. simpl. lra. }
  split; [reflexivity|].
  split; [apply (run_step_pull c mdl dataset epoch s i b _ Hc Hb Hg)|].
  split; [reflexivity|].
  intros th'. apply loss_is_minus_elbo.
Qed.

(** C8: [make_prior] depends on the latent dimension only and returns two
    diagonal Gaussians with location 0 and scale 1; binding the priors a
    first time under the name [u_prior] alone leaves the same names bound
    to the same values after the second binding, so the graph cell without
    the first binding builds the same model, the loss nodes evaluate to
    the same scalars, and the notebook behaves the same. *)
Theorem prior_shadowing_is_dead (c : Config) :
  make_prior (D c) =
    ({| loc := [repeat 0 (D c)]; scale_diag := [repeat 1 (D c)] |},
     {| loc := [repeat 0 (D c)]; scale_diag := [repeat 1 (D c)] |}) /\
  (forall ns, prior_scope c (priors_scope c ns) = prior_scope c ns) /\
  build_model c = build_model_once c /\
  build_model_once c =
    Some {| model_u_prior := fst (make_prior (D c));
            model_v_prior := snd (make_prior (D c)) |} /\
  (forall run th data,
     (mdl ← build_model c; run_graph c mdl run th data) =
     (mdl ← build_model_once c; run_graph c mdl run th data)) /\
  (forall fuel dataset vars,
     notebook fuel c dataset vars = notebook_once fuel c dataset vars).
Proof.
  assert (Heq : build_model c = build_model_once c).
  { unfold build_model, build_model_once. rewrite !build_with_some. reflexivity. }
  split; [reflexivity|].
  split; [apply prior_scope_overrides|].
  split; [exact Heq|].
  split; [apply build_with_some|].
  split.
  - intros run th data. rewrite Heq. reflexivity.
  - intros fuel dataset vars. unfold notebook, notebook_once.
    rewrite Heq. reflexivity.
Qed.

End ObjectiveProperties.

(** ** The training loop *)

Lemma data_events_app (a b : list event) :
  data_events (a ++ b) = data_events a ++ data_events b.
Proof. apply filter_app. Qed.

Lemma replay_app (cur : option nat) (a b : list event) :
  replay cur (a ++ b) =
    match replay cur a with
    | Some cur' => replay cur' b
    | None => None
    end.
Proof.
  revert cur. induction a as [|e a IH]; intros cur; [reflexivity|].
  destruct e; simpl; try apply IH.
  - destruct cur as [j|]; [|reflexivity].
    destruct (Nat.eqb i j); [apply IH | reflexivity].
  - destruct cur; [apply IH | reflexivity].
Qed.

Section LoopProperties.

Context `{Backend}.
Variables (c : Config) (mdl : Model) (dataset : list batch).

Lemma run_step_cases (epoch : nat) (s : Session) (i : nat) (b : batch) :
  cursor s = Some i ->
  nth_error dataset i = Some b ->
  (exists g vars,
     run_step c mdl dataset epoch s =
       Returned {| variables := vars; cursor := Some (S i); runs := S (runs s);
                   trace := (trace s ++ [Pulled i])
                            ++ [Printed (elbo g); Summary (merged g) epoch] |}) \/
  run_step c mdl dataset epoch s =
    Raised InvalidArgumentError
      {| variables := variables s; cursor := Some (S i); runs := S (runs s);
         trace := trace s ++ [Pulled i] |}.
Proof.
  intros Hc Hb.
  destruct (run_graph c mdl (runs s) (fst (variables s)) (cast_float32 b))
    as [g|] eqn:Hg.
  - left. exists g. eexists.
    exact (run_step_pull c mdl dataset epoch s i b g Hc Hb Hg).
  - right. unfold run_step. rewrite Hc, Hb, Hg. reflexivity.
Qed.

(** A pass over well-shaped batches, from position [i] to the end. *)
Lemma while_true_pass (epoch : nat) :
  Forall (well_shaped c) dataset ->
  forall (k i : nat) (s : Session) (fuel : nat),
    cursor s = Some i ->
    (i + k = length dataset)%nat ->
    (k < fuel)%nat ->
    exists s',
      while_true fuel c mdl dataset epoch s = Some (Returned s') /\
      runs s' = (runs s + k)%nat /\
      data_events (trace s') =
        data_events (trace s) ++ map Pulled (seq i k) ++ [Exhausted].
Proof.
  intros Hall. induction k as [|k IH]; intros i s fuel Hc Hik Hf;
    (destruct fuel as [|fuel]; [lia|]); simpl.
  - rewrite (run_step_exhausted c mdl dataset epoch s i Hc)
      by (apply nth_error_None; lia).
    eexists. split; [reflexivity|].
    split; [simpl; lia|].
    simpl. rewrite data_events_app. reflexivity.
  - destruct (nth_error dataset i) as [b|] eqn:Hb;
      [|apply nth_error_None in Hb; lia].
    assert (Hw : well_shaped c b).
    { rewrite List.Forall_forall in Hall. apply Hall.
      eapply nth_error_In. exact Hb. }
    destruct (run_graph_some c mdl (runs s) (fst (variables s))
                (cast_float32 b) Hw) as (ue & ve & dp & _ & _ & Hg).
    cbv zeta in Hg.
    rewrite (run_step_pull c mdl dataset epoch s i b _ Hc Hb Hg).
    match goal with
    | |- context [while_true fuel c mdl dataset epoch ?s1] =>
        destruct (IH (S i) s1 fuel) as (s' & Hrun & Hruns & Htr);
        [reflexivity | lia | lia |]
    end.
    exists s'. split; [exact Hrun|].
    split; [rewrite Hruns; simpl; lia|].
    rewrite Htr. simpl trace.
    rewrite !data_events_app. simpl. rewrite <- !app_assoc. reflexivity.
Qed.

Lemma for_epoch_passes (fuel : nat) :
  Forall (well_shaped c) dataset ->
  (length dataset < fuel)%nat ->
  forall (range : list nat) (s : Session),
    exists s',
      for_epoch fuel c mdl dataset range s = Some (Returned s') /\
      runs s' = (runs s + length range * length dataset)%nat /\
      data_events (trace s') =
        data_events (trace s) ++ full_passes (length dataset) (length range).
Proof.
  intros Hall Hf. induction range as [|epoch range IH]; intros s; simpl.
  - exists s. split; [reflexivity|].
    split; [lia|]. unfold full_passes. simpl. rewrite app_nil_r. reflexivity.
  - destruct (while_true_pass epoch Hall (length dataset) 0 (run_initializer s) fuel)
      as (s1 & Hrun & Hruns & Htr); [reflexivity | lia | exact Hf |].
    rewrite Hrun.
    destruct (IH s1) as (s' & Hrun' & Hruns' & Htr').
    exists s'. split; [exact Hrun'|].
    split; [rewrite Hruns', Hruns; simpl; lia|].
    rewrite Htr', Htr. simpl trace. rewrite data_events_app. simpl.
    unfold full_passes, full_pass. simpl.
    rewrite <- !app_assoc. reflexivity.
Qed.

(** A pass that meets a batch of the wrong size at position [j]. *)
Lemma while_true_abort (epoch : nat) (j : nat) (b : batch) :
  Forall (well_shaped c) (firstn j dataset) ->
  nth_error dataset j = Some b ->
  numel (cast_float32 b) <> (batch_size c * M c)%nat ->
  forall (k i : nat) (s : Session) (fuel : nat),
    cursor s = Some i ->
    (i + k = j)%nat ->
    (k < fuel)%nat ->
    exists s',
      while_true fuel c mdl dataset epoch s = Some (Raised InvalidArgumentError s') /\
      runs s' = (runs s + S k)%nat /\
      data_events (trace s') = data_events (trace s) ++ map Pulled (seq i (S k)).
Proof.
  intros Hall Hb Hn. induction k as [|k IH]; intros i s fuel Hc Hik Hf;
    (destruct fuel as [|fuel]; [lia|]); simpl.
  - replace i with j in Hc by lia.
    rewrite (run_step_mismatch c mdl dataset epoch s j b Hc Hb Hn).
    eexists. split; [reflexivity|].
    split; [simpl; lia|].
    simpl. rewrite data_events_app. replace i with j by lia. reflexivity.
  - assert (Hij : (i < j)%nat) by lia.
    assert (Hjl : (j < length dataset)%nat)
      by (apply nth_error_Some; rewrite Hb; discriminate).
    destruct (nth_error dataset i) as [b0|] eqn:Hb0;
      [|apply nth_error_None in Hb0; lia].
    assert (Hw : well_shaped c b0).
    { rewrite List.Forall_forall in Hall. apply Hall.
      apply (nth_error_In _ i).
      rewrite nth_error_firstn.
      destruct (Nat.ltb_spec i j); [exact Hb0 | lia]. }
    destruct (run_graph_some c mdl (runs s) (fst (variables s))
                (cast_float32 b0) Hw) as (ue & ve & dp & _ & _ & Hg).
    cbv zeta in Hg.
    rewrite (run_step_pull c mdl dataset epoch s i b0 _ Hc Hb0 Hg).
    match goal with
    | |- context [while_true fuel c mdl dataset epoch ?s1] =>
        destruct (IH (S i) s1 fuel) as (s' & Hrun & Hruns & Htr);
        [reflexivity | lia | lia |]
    end.
    exists s'. split; [exact Hrun|].
    split; [rewrite Hruns; simpl; lia|].
    rewrite Htr. simpl trace.
    rewrite !data_events_app. simpl. rewrite <- !app_assoc. reflexivity.
Qed.

End LoopProperties.

Section LoopInvariants.

Context `{Backend}.
Variables (c : Config) (mdl : Model) (dataset : list batch).

Lemma while_true_mono (epoch : nat) (fuel : nat) :
  forall (s : Session) (r : outcome),
    while_true fuel c mdl dataset epoch s = Some r ->
    forall fuel', (fuel <= fuel')%nat ->
      while_true fuel' c mdl dataset epoch s = Some r.
Proof.
  induction fuel as [|fuel IH]; intros s r Hr fuel' Hle; [discriminate|].
  destruct fuel' as [|fuel']; [lia|].
  simpl in *.
  destruct (run_step c mdl dataset epoch s) as [s1 | e s1].
  - apply (IH s1 r Hr). lia.
  - exact Hr.
Qed.

Lemma for_epoch_mono (fuel fuel' : nat) :
  (fuel <= fuel')%nat ->
  forall (range : list nat) (s : Session) (r : outcome),
    for_epoch fuel c mdl dataset range s = Some r ->
    for_epoch fuel' c mdl dataset range s = Some r.
Proof.
  intros Hle. induction range as [|epoch range IH]; intros s r Hr; simpl in *;
    [exact Hr|].
  destruct (while_true fuel c mdl dataset epoch (run_initializer s))
    as [r1|] eqn:Hw; [|discriminate].
  rewrite (while_true_mono epoch fuel _ _ Hw fuel' Hle).
  destruct r1 as [s1 | e s1]; [apply IH; exact Hr | exact Hr].
Qed.

(** The position that the trace accounts for is the position of the
    iterator, all along a pass; the pass ends, whatever the batches are. *)
Lemma while_true_replay (epoch : nat) :
  forall (k i : nat) (s : Session) (fuel : nat),
    cursor s = Some i ->
    (i + k = length dataset)%nat ->
    (k < fuel)%nat ->
    replay None (trace s) = Some (Some i) ->
    exists r,
      while_true fuel c mdl dataset epoch s = Some r /\
      match r with
      | Returned s' => replay None (trace s') = Some None
      | Raised _ s' => exists cur, replay None (trace s') = Some cur
      end.
Proof.
  induction k as [|k IH]; intros i s fuel Hc Hik Hf Hinv;
    (destruct fuel as [|fuel]; [lia|]); simpl.
  - rewrite (run_step_exhausted c mdl dataset epoch s i Hc)
      by (apply nth_error_None; lia).
    eexists. split; [reflexivity|].
    simpl. rewrite replay_app, Hinv. reflexivity.
  - destruct (nth_error dataset i) as [b|] eqn:Hb;
      [|apply nth_error_None in Hb; lia].
    destruct (run_step_cases c mdl dataset epoch s i b Hc Hb)
      as [(g & vars & ->) | ->].
    + match goal with
      | |- context [while_true fuel c mdl dataset epoch ?s1] =>
          apply (IH (S i) s1 fuel); [reflexivity | lia | lia |]
      end.
      simpl trace. rewrite !replay_app, Hinv. simpl.
      rewrite Nat.eqb_refl. reflexivity.
    + eexists. split; [reflexivity|].
      exists (Some (S i)).
      simpl trace. rewrite replay_app, Hinv. simpl.
      rewrite Nat.eqb_refl. reflexivity.
Qed.

Lemma for_epoch_replay (fuel : nat) :
  (length dataset < fuel)%nat ->
  forall (range : list nat) (s : Session),
    (exists cur, replay None (trace s) = Some cur) ->
    exists r cur,
      for_epoch fuel c mdl dataset range s = Some r /\
      replay None (trace (session_of r)) = Some cur.
Proof.
  intros Hf. induction range as [|epoch range IH]; intros s [cur Hinv]; simpl.
  - exists (Returned s), cur. split; [reflexivity | exact Hinv].
  - destruct (while_true_replay epoch (length dataset) 0 (run_initializer s) fuel)
      as (r & Hr & Hpost); [reflexivity | lia | exact Hf | |].
    { simpl. rewrite replay_app, Hinv. reflexivity. }
    rewrite Hr. destruct r as [s1 | e s1].
    + apply IH. exists None. exact Hpost.
    + destruct Hpost as [cur' Hcur'].
      exists (Raised e s1), cur'. split; [reflexivity | exact Hcur'].
Qed.

(** Training stops with an error at the first batch of the wrong size. *)
Lemma training_abort (vars : EncoderParams * Slots) (fuel j : nat) (b : batch) :
  Forall (well_shaped c) (firstn j dataset) ->
  nth_error dataset j = Some b ->
  numel (cast_float32 b) <> (batch_size c * M c)%nat ->
  (0 < epochs c)%nat ->
  (j < fuel)%nat ->
  exists s,
    training fuel c mdl dataset vars = Some (Raised InvalidArgumentError s) /\
    runs s = S j /\
    data_events (trace s) = Initialized :: map Pulled (seq 0 (S j)).
Proof.
  intros Hall Hb Hn He Hf. unfold training.
  destruct (epochs c) as [|n]; [lia|].
  cbn [seq for_epoch].
  destruct (while_true_abort c mdl dataset 0 j b Hall Hb Hn j 0
              (run_initializer (new_session vars)) fuel)
    as (s & Hrun & Hruns & Htr); [reflexivity | lia | exact Hf |].
  rewrite Hrun. exists s.
  split; [reflexivity|]. split; [exact Hruns|]. exact Htr.
Qed.

End LoopInvariants.

Section TrainingProperties.

Context `{Backend}.

(** C5, as amended: when every batch of the data source holds [N * M]
    values, the notebook ends normally for every number of epochs, with
    fuel above the number of batches, after exactly [epochs] passes, each
    of which initializes the iterator, pulls every batch once in order and
    meets the end of the data; nothing in the backend (the values of the
    loss, the optimizer) changes the number of passes. *)
Theorem training_runs_epochs_passes (c : Config) (dataset : list batch)
    (vars : EncoderParams * Slots) (fuel : nat) :
  Forall (well_shaped c) dataset ->
  (length dataset < fuel)%nat ->
  completes_all_epochs c dataset vars /\
  exists s,
    notebook fuel c dataset vars = Some (inr (Returned s)) /\
    runs s = (epochs c * length dataset)%nat /\
    data_events (trace s) = full_passes (length dataset) (epochs c).
Proof.
  intros Hall Hf.
  assert (Hex : exists s,
             notebook fuel c dataset vars = Some (inr (Returned s)) /\
             runs s = (epochs c * length dataset)%nat /\
             data_events (trace s) = full_passes (length dataset) (epochs c)).
  { unfold notebook, build_model. rewrite build_with_some.
    set (mdl := {| model_u_prior := fst (make_prior (D c));
                   model_v_prior := snd (make_prior (D c)) |}).
    unfold training.
    destruct (for_epoch_passes c mdl dataset fuel Hall Hf (seq 0 (epochs c))
                (new_session vars)) as (s & Hrun & Hruns & Htr).
    rewrite Hrun. exists s. split; [reflexivity|].
    rewrite length_seq in Hruns, Htr. split; [exact Hruns | exact Htr]. }
  split; [|exact Hex].
  destruct Hex as (s & Hrun & _ & Htr).
  exists fuel, s. split; assumption.
Qed.

(** C6: when the iterator is at the end of the data source, the inner loop
    ends normally (the end of data is logged, no error reaches the caller);
    every iteration of the outer loop starts by putting the iterator back
    to position 0; and in the trace of every training run, whatever the
    batches are, every pull delivers the batch at the position counted
    from the last initialization, none happening before the first
    initialization or between the end of the data and the next
    initialization. *)
Theorem exhaustion_breaks_and_epochs_restart (c : Config) (mdl : Model)
    (dataset : list batch) (fuel epoch : nat) (s : Session) (i : nat) :
  cursor s = Some i ->
  (length dataset <= i)%nat ->
  (length dataset < fuel)%nat ->
  while_true fuel c mdl dataset epoch s = Some (Returned (log [Exhausted] s)) /\
  (forall s0, cursor (run_initializer s0) = Some O /\
              trace (run_initializer s0) = trace s0 ++ [Initialized]) /\
  (forall range s0,
     for_epoch fuel c mdl dataset (epoch :: range) s0 =
       match while_true fuel c mdl dataset epoch (run_initializer s0) with
       | Some (Returned s1) => for_epoch fuel c mdl dataset range s1
       | r => r
       end) /\
  (forall vars, exists r cur,
     training fuel c mdl dataset vars = Some r /\
     replay None (trace (session_of r)) = Some cur).
Proof.
  intros Hc Hi Hf.
  split.
  { destruct fuel as [|fuel']; [lia|]. simpl.
    rewrite (run_step_exhausted c mdl dataset epoch s i Hc)
      by (apply nth_error_None; exact Hi).
    reflexivity. }
  split; [intros s0; split; reflexivity|].
  split; [intros range s0; reflexivity|].
  intros vars. unfold training.
  apply for_epoch_replay; [exact Hf|].
  exists None. reflexivity.
Qed.

(** C9, as amended: a batch whose number of elements is not
    [batch_size * num_features] makes the reshape of the encoder fail;
    building the model succeeds all the same, the error is raised by the
    training step that pulls the first such batch, after the steps on the
    batches before it, and it ends training, no handler catching it. *)
Theorem batch_mismatch_raises_at_step (c : Config) (dataset : list batch)
    (vars : EncoderParams * Slots) (fuel j : nat) (b : batch) :
  Forall (well_shaped c) (firstn j dataset) ->
  nth_error dataset j = Some b ->
  numel (cast_float32 b) <> (batch_size c * M c)%nat ->
  (0 < epochs c)%nat ->
  (j < fuel)%nat ->
  reshape (cast_float32 b) (batch_size c) (M c) = None /\
  (forall th, make_encoder th (cast_float32 b) (D c) (batch_size c) (M c) = None) /\
  exists mdl s,
    build_model c = Some mdl /\
    notebook fuel c dataset vars = Some (inr (Raised InvalidArgumentError s)) /\
    runs s = S j /\
    data_events (trace s) = Initialized :: map Pulled (seq 0 (S j)).
Proof.
  intros Hall Hb Hn He Hf.
  split; [apply reshape_none; exact Hn|].
  split; [intros th; apply make_encoder_none; exact Hn|].
  set (mdl := {| model_u_prior := fst (make_prior (D c));
                 model_v_prior := snd (make_prior (D c)) |}).
  destruct (training_abort c mdl dataset vars fuel j b Hall Hb Hn He Hf)
    as (s & Hrun & Hruns & Htr).
  exists mdl, s. split; [apply build_with_some|].
  split; [|split; [exact Hruns | exact Htr]].
  unfold notebook, build_model. rewrite build_with_some.
  fold mdl. rewrite Hrun. reflexivity.
Qed.

End TrainingProperties.

(** ** The claims at example inputs *)

Lemma short_dataset_aborts :
  exists s,
    @notebook ablation_backend 3 small_config short_dataset ablation_vars =
      Some (inr (Raised InvalidArgumentError s)) /\
    runs s = 2%nat /\
    data_events (trace s) = [Initialized; Pulled 0; Pulled 1].
Proof.
  destruct (@training_abort ablation_backend small_config
              {| model_u_prior := fst (make_prior (D small_config));
                 model_v_prior := snd (make_prior (D small_config)) |}
              short_dataset ablation_vars 3 1 [[2%Z]])
    as (s & Hrun & Hruns & Htr).
  - repeat constructor.
  - reflexivity.
  - intros Heq. vm_compute in Heq. discriminate.
  - simpl. lia.
  - lia.
  - exists s. split; [|split; [exact Hruns | exact Htr]].
    unfold notebook, build_model. rewrite build_with_some, Hrun. reflexivity.
Qed.

Lemma notebook_mono `{Backend} (c : Config) (dataset : list batch)
    (vars : EncoderParams * Slots) (fuel fuel' : nat) (r : error + outcome) :
  (fuel <= fuel')%nat ->
  notebook fuel c dataset vars = Some r ->
  notebook fuel' c dataset vars = Some r.
Proof.
  intros Hle. unfold notebook, build_model. rewrite build_with_some.
  set (mdl := {| model_u_prior := fst (make_prior (D c));
                 model_v_prior := snd (make_prior (D c)) |}).
  unfold training.
  destruct (for_epoch fuel c mdl dataset (seq 0 (epochs c)) (new_session vars))
    as [r0|] eqn:Hr; [|discriminate].
  rewrite (for_epoch_mono c mdl dataset fuel fuel' Hle _ _ _ Hr).
  intros Heq. exact Heq.
Qed.

(** C5, as stated, fails: with three records batched by two the second
    batch is short, the step on it raises an error that the loop does not
    catch, and no pass is completed, whatever the fuel is. *)
Lemma short_last_batch_stops_training :
  ~ @completes_all_epochs ablation_backend small_config short_dataset
      ablation_vars /\
  exists s,
    @notebook ablation_backend 3 small_config short_dataset ablation_vars =
      Some (inr (Raised InvalidArgumentError s)) /\
    data_events (trace s) = [Initialized; Pulled 0; Pulled 1].
Proof.
  destruct short_dataset_aborts as (s & Hrun & Hruns & Htr).
  split; [|exists s; split; assumption].
  intros (fuel & s' & Hrun' & _).
  apply (notebook_mono _ _ _ fuel (fuel + 3)) in Hrun'; [|lia].
  apply (notebook_mono _ _ _ 3 (fuel + 3)) in Hrun; [|lia].
  rewrite Hrun in Hrun'. discriminate.
Qed.

(** C9, as stated, fails: [short_dataset] has a batch of the wrong size,
    yet building the model succeeds, and the error is raised by the second
    training step, after a first step that ran. *)
Lemma mismatch_is_raised_by_a_step :
  (exists b, In b short_dataset /\
             numel (cast_float32 b) <>
               (batch_size small_config * M small_config)%nat) /\
  ~ @fails_at_construction ablation_backend small_config short_dataset
      ablation_vars /\
  build_model small_config = Some small_model /\
  exists s,
    @notebook ablation_backend 3 small_config short_dataset ablation_vars =
      Some (inr (Raised InvalidArgumentError s)) /\
    runs s = 2%nat.
Proof.
  destruct short_dataset_aborts as (s & Hrun & Hruns & Htr).
  split.
  { exists [[2%Z]]. split; [right; left; reflexivity|].
    intros Heq. vm_compute in Heq. discriminate. }
  split.
  { intros Hf. destruct (Hf 3%nat) as [e He].
    rewrite Hrun in He. discriminate. }
  split; [apply build_with_some|].
  exists s. split; assumption.
Qed.

Lemma dense_zero_kernel (b : list R) (inputs : tensor) (units : nat)
    (activation : R -> R) :
  dense {| kernel := []; bias := b |} inputs units activation =
    repeat (map (fun j => activation (0 + nth j b 0)) (seq 0 units))
           (length inputs).
Proof.
  unfold dense. induction inputs as [|x inputs IH]; [reflexivity|].
  simpl map at 1. simpl length. simpl repeat. f_equal; [|exact IH].
  apply map_ext. intros j.
  cbn [kernel bias]. unfold column, dot. cbn [map].
  rewrite combine_nil. reflexivity.
Qed.

(** C3, as stated, fails: when the last layer of the sample path puts out
    -200 on the column of the scale (zero kernel, bias -200), the scale of
    U computed in float32 is 0 in every row, not positive. *)
Lemma scale_underflows_to_zero :
  slice_from 1 (u_net underflow_params [[1]; [0]] 1) = [[-200]; [-200]] /\
  scale_transform_float32 (slice_from 1 (u_net underflow_params [[1]; [0]] 1)) =
    [[0]; [0]] /\
  ~ Forall (Forall (fun s => 0 < s))
      (scale_transform_float32
         (slice_from 1 (u_net underflow_params [[1]; [0]] 1))).
Proof.
  assert (Hraw : slice_from 1 (u_net underflow_params [[1]; [0]] 1) =
                 [[-200]; [-200]]).
  { unfold u_net. cbn [underflow_params u_dense_out].
    rewrite dense_zero_kernel.
    rewrite !(proj1 (dense_shape _ _ _ _)).
    cbn [length repeat Nat.mul Nat.add seq map nth slice_from skipn].
    unfold linear. repeat f_equal; lra. }
  assert (Hzero : scale_transform_float32 [[-200]; [-200]] = [[0]; [0]]).
  { unfold scale_transform_float32. cbn [map].
    rewrite scale_entry_float32_underflow by lra. reflexivity. }
  split; [exact Hraw|].
  rewrite Hraw, Hzero. split; [reflexivity|].
  intros Hall. inversion Hall as [|? ? Hrow _]; subst.
  inversion Hrow as [|? ? Hpos _]; subst. lra.
Qed.

Lemma elbo_objective_witness :
  well_shaped small_config [[1%Z]; [0%Z]] /\
  exists mdl g s',
    build_model small_config = Some mdl /\
    @run_graph ablation_backend small_config mdl 0 zero_params
      (cast_float32 [[1%Z]; [0%Z]]) = Some g /\
    elbo g = - u_kl g - v_kl g + likelihood g /\
    @run_step ablation_backend small_config mdl even_dataset 0
      (run_initializer (new_session ablation_vars)) = Returned s'.
Proof.
  split; [reflexivity|].
  pose proof (@elbo_objective ablation_backend small_config even_dataset 0
                (run_initializer (new_session ablation_vars)) 0
                [[1%Z]; [0%Z]] eq_refl eq_refl eq_refl) as Hw.
  cbv zeta in Hw.
  destruct Hw as (mdl & ue & ve & dp & flat & g & s' & Hm & _ & _ & _ & _ & _
                  & Hg & _ & _ & _ & He & Hs & _).
  exists mdl, g, s'. repeat split; assumption.
Defined.


Lemma encoder_scale_positive_up_to_underflow_witness :
  numel [[1]; [0]] = (2 * 1)%nat /\
  (exists u v,
     make_encoder zero_params [[1]; [0]] 1 2 1 = Some (u, v) /\
     Forall (Forall (fun s => 0 < s)) (scale_diag u) /\
     Forall (Forall (fun s => 0 < s)) (scale_diag v)) /\
  0 <= scale_entry_float32 (-200) /\
  0 < scale_entry_float32 (-80).
Proof.
  split; [reflexivity|].
  destruct (encoder_scale_positive_up_to_underflow zero_params [[1]; [0]] 1 2 1
              eq_refl) as (_ & (u & v & He & _ & _ & Hu & Hv) & Hnn & Hpos & _).
  split; [exists u, v; repeat split; assumption|].
  split.
  - specialize (Hnn [[-200]]). inversion Hnn as [|? ? Hrow _]; subst.
    inversion Hrow; subst. assumption.
  - apply Hpos. lra.
Defined.

Lemma decoder_bilinear_logits_witness :
  has_shape 1 2 [[1; 2]] /\ has_shape 1 2 [[3; 4]] /\
  exists dist flat,
    make_decoder [[1; 2]] [[3; 4]] 1 1 2 = Some dist /\
    logits dist = [flat] /\
    total_count dist = 2 /\
    nth 0 flat 0 = softplus (1 * 3 + (2 * 4 + 0)).
Proof.
  assert (Hu : has_shape 1 2 [[1; 2]]) by (split; [reflexivity | repeat constructor]).
  assert (Hv : has_shape 1 2 [[3; 4]]) by (split; [reflexivity | repeat constructor]).
  split; [exact Hu|]. split; [exact Hv|].
  destruct (decoder_bilinear_logits [[1; 2]] [[3; 4]] 1 1 2 Hu Hv)
    as (dist & flat & Hd & Hl & Ht & _ & Hij).
  exists dist, flat.
  split; [exact Hd|]. split; [exact Hl|]. split; [exact Ht|].
  exact (proj1 (Hij 0%nat 0%nat (le_n 1) (le_n 1))).
Defined.

Lemma training_runs_epochs_passes_witness :
  Forall (well_shaped small_config) even_dataset /\
  (length even_dataset < 3)%nat /\
  exists s,
    @notebook ablation_backend 3 small_config even_dataset ablation_vars =
      Some (inr (Returned s)) /\
    runs s = 4%nat /\
    data_events (trace s) =
      [Initialized; Pulled 0; Pulled 1; Exhausted;
       Initialized; Pulled 0; Pulled 1; Exhausted].
Proof.
  assert (Hall : Forall (well_shaped small_config) even_dataset)
    by (repeat constructor).
  assert (Hf : (length even_dataset < 3)%nat) by (simpl; lia).
  split; [exact Hall|]. split; [exact Hf|].
  exact (proj2 (@training_runs_epochs_passes ablation_backend small_config
                  even_dataset ablation_vars 3 Hall Hf)).
Defined.

Lemma exhaustion_breaks_and_epochs_restart_witness :
  cursor drained_session = Some 2%nat /\
  (length even_dataset <= 2)%nat /\
  (length even_dataset < 3)%nat /\
  @while_true ablation_backend 3 small_config small_model even_dataset 0
    drained_session = Some (Returned (log [Exhausted] drained_session)).
Proof.
  assert (Hi : (length even_dataset <= 2)%nat) by (simpl; lia).
  assert (Hf : (length even_dataset < 3)%nat) by (simpl; lia).
  split; [reflexivity|]. split; [exact Hi|]. split; [exact Hf|].
  exact (proj1 (@exhaustion_breaks_and_epochs_restart ablation_backend
                  small_config small_model even_dataset 3 0 drained_session 2
                  eq_refl Hi Hf)).
Defined.

Lemma kl_self_is_zero_witness :
  Forall (fun s => 0 < s) [2; 0.5] /\
  kl_row [1; -3] [2; 0.5] [1; -3] [2; 0.5] = 0.
Proof.
  assert (Hpos : Forall (fun s => 0 < s) [2; 0.5])
    by (repeat constructor; lra).
  split; [exact Hpos|].
  exact (proj1 (kl_self_is_zero [1; -3] [2; 0.5] Hpos)).
Defined.

Lemma batch_mismatch_raises_at_step_witness :
  Forall (well_shaped small_config) (firstn 1 short_dataset) /\
  nth_error short_dataset 1 = Some [[2%Z]] /\
  numel (cast_float32 [[2%Z]]) <> (batch_size small_config * M small_config)%nat /\
  (0 < epochs small_config)%nat /\
  (1 < 3)%nat /\
  exists mdl s,
    build_model small_config = Some mdl /\
    @notebook ablation_backend 3 small_config short_dataset ablation_vars =
      Some (inr (Raised InvalidArgumentError s)) /\
    runs s = 2%nat.
Proof.
  assert (Hall : Forall (well_shaped small_config) (firstn 1 short_dataset))
    by (repeat constructor).
  assert (Hn : numel (cast_float32 [[2%Z]]) <>
               (batch_size small_config * M small_config)%nat)
    by (intros Heq; vm_compute in Heq; discriminate).
  assert (He : (0 < epochs small_config)%nat) by (simpl; lia).
  assert (Hf : (1 < 3)%nat) by lia.
  split; [exact Hall|]. split; [reflexivity|]. split; [exact Hn|].
  split; [exact He|]. split; [exact Hf|].
  destruct (@batch_mismatch_raises_at_step ablation_backend small_config
              short_dataset ablation_vars 3 1 [[2%Z]] Hall eq_refl Hn He Hf)
    as (_ & _ & mdl & s & Hm & Hrun & Hruns & _).
  exists mdl, s. repeat split; assumption.
Defined.

Lemma decoder_dosage_at_least_half_witness :
  exists dist,
    make_decoder [[1; 2]] [[3; 4]] 1 1 2 = Some dist /\
    total_count dist = 2 /\
    Forall (Forall (fun l => 0 <= l /\ 1 / 2 <= sigmoid l /\
                             total_count dist / 2 <= total_count dist * sigmoid l))
           (logits dist).
Proof.
  eexists. split; [reflexivity|].
  eapply (decoder_dosage_at_least_half [[1; 2]] [[3; 4]] 1 1 2).
  reflexivity.
Defined.

(** * Further properties *)

(** ** Decoding a record *)

Lemma int8_of_byte_range (b : Byte.byte) :
  (-128 <= int8_of_byte b <= 127)%Z.
Proof.
  unfold int8_of_byte.
  pose proof (Byte.to_N_bounded b) as Hb.
  destruct (Z.ltb_spec (Z.of_N (Byte.to_N b)) 128); lia.
Qed.

Lemma byte_to_N_inj (a b : Byte.byte) : Byte.to_N a = Byte.to_N b -> a = b.
Proof.
  intros Heq.
  pose proof (Byte.of_to_N a) as Ha. rewrite Heq, Byte.of_to_N in Ha.
  injection Ha as Ha. symmetry. exact Ha.
Qed.

Lemma int8_of_byte_inj (a b : Byte.byte) :
  int8_of_byte a = int8_of_byte b -> a = b.
Proof.
  unfold int8_of_byte. intros Heq.
  pose proof (Byte.to_N_bounded a) as Ha.
  pose proof (Byte.to_N_bounded b) as Hb.
  apply byte_to_N_inj.
  destruct (Z.ltb_spec (Z.of_N (Byte.to_N a)) 128);
    destruct (Z.ltb_spec (Z.of_N (Byte.to_N b)) 128); lia.
Qed.

Lemma decode_raw_inj (x y : list Byte.byte) :
  decode_raw x = decode_raw y -> x = y.
Proof.
  unfold decode_raw. revert y.
  induction x as [|a x IH]; intros [|b y] Heq; try discriminate; [reflexivity|].
  simpl in Heq. injection Heq as Hab Hxy.
  f_equal; [apply int8_of_byte_inj; exact Hab | apply IH; exact Hxy].
Qed.

(** X1: a record decodes exactly when it holds [m_variants] bytes; the result
    is then one row of [m_variants] values, each a signed 8-bit integer, and
    a byte below 128 stands for its own value. *)
Theorem decode_tfrecords_spec (genotypes : list Byte.byte) (m_variants : nat) :
  (length genotypes = m_variants ->
   exists row,
     decode_tfrecords genotypes m_variants = Some [row] /\
     length row = m_variants /\
     Forall (fun v => (-128 <= v <= 127)%Z) row /\
     forall k b, nth_error genotypes k = Some b ->
       (Z.of_N (Byte.to_N b) < 128)%Z ->
       nth_error row k = Some (Z.of_N (Byte.to_N b))) /\
  (length genotypes <> m_variants ->
   decode_tfrecords genotypes m_variants = None).
Proof.
  unfold decode_tfrecords. rewrite Nat.mul_1_l.
  split; intros Hlen.
  - exists (decode_raw genotypes).
    assert (Hl : length (decode_raw genotypes) = m_variants)
      by (unfold decode_raw; rewrite length_map; exact Hlen).
    rewrite Hl, Nat.eqb_refl.
    split; [reflexivity|]. split; [reflexivity|]. split.
    + unfold decode_raw. apply List.Forall_forall. intros v Hv.
      apply in_map_iff in Hv as (b & <- & _). apply int8_of_byte_range.
    + intros k b Hk Hb. unfold decode_raw.
      rewrite nth_error_map, Hk. simpl. unfold int8_of_byte.
      destruct (Z.ltb_spec (Z.of_N (Byte.to_N b)) 128); [reflexivity | lia].
  - unfold decode_raw. rewrite length_map.
    destruct (Nat.eqb_spec (length genotypes) m_variants);
      [contradiction | reflexivity].
Qed.

(** X2: decoding loses nothing: two records that decode to the same tensor
    hold the same bytes. *)
Theorem decode_tfrecords_injective (x y : list Byte.byte) (m_variants : nat)
    (t : list (list Z)) :
  decode_tfrecords x m_variants = Some t ->
  decode_tfrecords y m_variants = Some t ->
  x = y.
Proof.
  unfold decode_tfrecords. intros Hx Hy.
  destruct (Nat.eqb (length (decode_raw x)) (1 * m_variants)); [|discriminate].
  destruct (Nat.eqb (length (decode_raw y)) (1 * m_variants)); [|discriminate].
  injection Hx as <-. injection Hy as Hy.
  apply decode_raw_inj. symmetry. exact Hy.
Qed.

(** ** Batching *)

Lemma take_batches_nth {A} (size : nat) :
  (0 < size)%nat ->
  forall (fuel : nat) (l : list A) (i : nat),
    (length l <= fuel)%nat ->
    nth_error (take_batches fuel size l) i =
      if Nat.ltb (i * size) (length l)
      then Some (firstn size (skipn (i * size) l))
      else None.
Proof.
  intros Hs.
  assert (Hnil : forall i, Nat.ltb (i * size) 0 = false)
    by (intros j; apply Nat.ltb_ge; lia).
  induction fuel as [|fuel IH]; intros l i Hl.
  - destruct l; [|simpl in Hl; lia].
    cbn [take_batches length]. rewrite Hnil. destruct i; reflexivity.
  - destruct l as [|x l].
    { cbn [take_batches length]. rewrite Hnil. destruct i; reflexivity. }
    cbn [take_batches].
    destruct i as [|i].
    + simpl. reflexivity.
    + cbn [nth_error].
      rewrite IH by (rewrite length_skipn; simpl in *; lia).
      rewrite length_skipn, skipn_skipn.
      replace (S i * size)%nat with (i * size + size)%nat by lia.
      destruct (Nat.ltb_spec (i * size) (length (x :: l) - size));
        destruct (Nat.ltb_spec (i * size + size) (length (x :: l)));
        try lia; reflexivity.
Qed.

Lemma take_batches_concat {A} (size : nat) :
  (0 < size)%nat ->
  forall (fuel : nat) (l : list A),
    (length l <= fuel)%nat ->
    concat (take_batches fuel size l) = l.
Proof.
  intros Hs. induction fuel as [|fuel IH]; intros l Hl.
  - destruct l; [reflexivity | simpl in Hl; lia].
  - destruct l as [|x l]; [reflexivity|].
    cbn [take_batches concat].
    rewrite IH by (rewrite length_skipn; simpl in *; lia).
    apply firstn_skipn.
Qed.

(** X3: batch [i] of [dataset.batch(batch_size)] holds the elements from
    position [i * batch_size] on, [batch_size] of them or those that are
    left; there is no batch [i] when [i * batch_size] is past the last
    element; a batch size of 0 is an error. *)
Theorem dataset_batch_slices {A} (batch_size : nat) (elements : list A) :
  (batch_size = O -> dataset_batch batch_size elements = None) /\
  ((0 < batch_size)%nat ->
   exists batches,
     dataset_batch batch_size elements = Some batches /\
     forall i,
       nth_error batches i =
         if Nat.ltb (i * batch_size) (length elements)
         then Some (firstn batch_size (skipn (i * batch_size) elements))
         else None).
Proof.
  unfold dataset_batch. split.
  - intros ->. reflexivity.
  - intros Hs. destruct (Nat.eqb_spec batch_size 0); [lia|].
    eexists. split; [reflexivity|].
    intros i. apply take_batches_nth; [exact Hs | lia].
Qed.

(** X4: batching loses, repeats and reorders nothing: the batches put end to
    end are the elements; no batch is empty, none holds more than
    [batch_size] elements, and every batch but the last holds exactly
    [batch_size]. *)
Theorem dataset_batch_partition {A} (batch_size : nat) (elements : list A)
    (batches : list (list A)) :
  dataset_batch batch_size elements = Some batches ->
  concat batches = elements /\
  Forall (fun b => (0 < length b <= batch_size)%nat) batches /\
  forall i, (S i < length batches)%nat ->
    length (nth i batches []) = batch_size.
Proof.
  unfold dataset_batch.
  destruct (Nat.eqb_spec batch_size 0) as [|Hne]; [discriminate|].
  intros [= <-].
  assert (Hs : (0 < batch_size)%nat) by lia.
  pose proof (fun i => take_batches_nth batch_size Hs (length elements) elements i
                         (le_n _)) as Hnth.
  split; [apply take_batches_concat; [exact Hs | lia]|].
  split.
  - apply List.Forall_forall. intros b Hb.
    apply In_nth_error in Hb as [i Hi].
    rewrite Hnth in Hi.
    destruct (Nat.ltb_spec (i * batch_size) (length elements)); [|discriminate].
    injection Hi as <-.
    rewrite length_firstn, length_skipn. lia.
  - intros i Hi.
    assert (Hsome : nth_error (take_batches (length elements) batch_size elements)
                      (S i) <> None) by (apply nth_error_Some; exact Hi).
    rewrite Hnth in Hsome.
    destruct (Nat.ltb_spec (S i * batch_size) (length elements));
      [|contradiction].
    assert (Hi' : nth_error (take_batches (length elements) batch_size elements) i
                  = Some (firstn batch_size (skipn (i * batch_size) elements))).
    { rewrite Hnth.
      destruct (Nat.ltb_spec (i * batch_size) (length elements)); [reflexivity | lia]. }
    rewrite (nth_error_nth _ _ _ Hi').
    rewrite length_firstn, length_skipn. lia.
Qed.

(** ** Reshaping and transposing *)

Lemma concat_chunk (rows cols : nat) (l : list R) :
  length l = (rows * cols)%nat -> concat (chunk rows cols l) = l.
Proof.
  revert l. induction rows as [|r IH]; intros l Hl; simpl.
  - destruct l; [reflexivity | simpl in Hl; lia].
  - rewrite IH by (rewrite length_skipn; simpl in Hl; lia).
    apply firstn_skipn.
Qed.

Lemma chunk_concat (rows cols : nat) (t : tensor) :
  has_shape rows cols t -> chunk rows cols (concat t) = t.
Proof.
  intros [Hlen Hall]. subst rows.
  induction Hall as [|r t Hr _ IH]; [reflexivity|].
  simpl. subst cols.
  rewrite firstn_app, Nat.sub_diag, firstn_all, firstn_O, app_nil_r.
  rewrite skipn_app, Nat.sub_diag, skipn_all, skipn_O. simpl.
  rewrite IH. reflexivity.
Qed.

(** X7: a reshape that succeeds gives the asked shape and keeps the elements in
    row-major order. *)
Theorem reshape_keeps_elements (t t' : tensor) (rows cols : nat) :
  reshape t rows cols = Some t' ->
  has_shape rows cols t' /\ concat t' = concat t.
Proof.
  intros Hr. apply reshape_inv in Hr as [Hn ->].
  split; [apply chunk_shape; exact Hn | apply concat_chunk; exact Hn].
Qed.

(** X8: reshaping a tensor to the shape it has returns it as it is. *)
Theorem reshape_same_shape (t : tensor) (rows cols : nat) :
  has_shape rows cols t -> reshape t rows cols = Some t.
Proof.
  intros Hs.
  rewrite reshape_some by (apply concat_length_uniform; exact Hs).
  rewrite chunk_concat by exact Hs. reflexivity.
Qed.

Lemma map_nth_seq {A} (l : list A) (d : A) (n : nat) :
  length l = n -> map (fun i => nth i l d) (seq 0 n) = l.
Proof.
  revert n. induction l as [|x l IH]; intros n Hn; simpl in Hn; subst n;
    [reflexivity|].
  simpl. rewrite <- seq_shift, map_map. simpl.
  rewrite IH by reflexivity. reflexivity.
Qed.

Lemma nth2_transpose (cols : nat) (t : tensor) (i j : nat) :
  (i < length t)%nat -> (j < cols)%nat ->
  nth2 (transpose cols t) j i = nth2 t i j.
Proof.
  intros Hi Hj. unfold nth2, transpose.
  rewrite (nth_indep _ [] (map (fun row => nth 0 row 0) t))
    by (rewrite length_map, length_seq; exact Hj).
  rewrite (map_nth (fun j => map (fun row => nth j row 0) t) (seq 0 cols) 0%nat j).
  rewrite seq_nth by exact Hj. simpl.
  rewrite (nth_indep _ 0 (nth j [] 0)) by (rewrite length_map; exact Hi).
  apply (map_nth (fun row => nth j row 0)).
Qed.

(** X9: transposing twice gives the tensor back, and entry [(j, i)] of the
    transpose is entry [(i, j)] of the tensor. *)
Theorem transpose_involutive (rows cols : nat) (t : tensor) :
  has_shape rows cols t ->
  transpose rows (transpose cols t) = t /\
  has_shape cols rows (transpose cols t) /\
  forall i j, (i < rows)%nat -> (j < cols)%nat ->
    nth2 (transpose cols t) j i = nth2 t i j.
Proof.
  intros Hs. pose proof Hs as [Hlen Hall].
  split; [|split].
  - unfold transpose at 1.
    transitivity (map (fun i => nth i t []) (seq 0 rows));
      [|apply map_nth_seq; exact Hlen].
    apply map_ext_in. intros i Hi. apply in_seq in Hi.
    transitivity (map (fun j => nth j (nth i t []) 0) (seq 0 cols));
      [|apply map_nth_seq, (shape_nth_length rows cols); [exact Hs | lia]].
    unfold transpose. rewrite map_map.
    apply map_ext_in. intros j Hj. apply in_seq in Hj.
    rewrite (nth_indep _ 0 (nth j [] 0)) by (rewrite length_map; lia).
    apply (map_nth (fun row => nth j row 0)).
  - split; [apply transpose_length|].
    unfold transpose. apply List.Forall_forall. intros r Hr.
    apply in_map_iff in Hr as (j & <- & _).
    rewrite length_map. exact Hlen.
  - intros i j Hi Hj. apply nth2_transpose; lia.
Qed.

(** ** When the decoder and the loss nodes fail *)

(** X10: for [u] of [n] rows and [v] of [m] rows of the same width, the
    decoder returns a distribution exactly when [n * m] is
    [num_features * batch_size]; it does not look at the factors one by one,
    nor at [z_dim]. *)
Theorem make_decoder_succeeds_iff (u v : tensor) (n m d : nat)
    (batch_size num_features z_dim : nat) :
  has_shape n d u ->
  has_shape m d v ->
  ((n * m = num_features * batch_size)%nat ->
   make_decoder u v batch_size num_features z_dim =
     Some {| logits := [map softplus (concat (tensordot u v))];
             total_count := 2 |}) /\
  ((n * m <> num_features * batch_size)%nat ->
   make_decoder u v batch_size num_features z_dim = None).
Proof.
  intros [Hu _] [Hv _].
  pose proof (concat_length_uniform _ _ _ (tensordot_shape u v)) as Hlen.
  rewrite Hu, Hv in Hlen.
  unfold make_decoder. split; intros Hn.
  - rewrite reshape_some by (unfold numel; lia).
    simpl. rewrite firstn_all2 by lia. reflexivity.
  - rewrite reshape_none by (unfold numel; lia). reflexivity.
Qed.

(** ** The divergence from the prior *)







(** X16: against the prior of [make_prior], the divergence of a row with
    location [l] and positive scale [s] is
    [0.5 * sum (s^2 + l^2 - 1 - 2 ln s)]. *)
Theorem kl_row_standard_prior (location scale : list R) (z_dim : nat) :
  length location = z_dim ->
  length scale = z_dim ->
  Forall (fun s => 0 < s) scale ->
  kl_divergence {| loc := [location]; scale_diag := [scale] |}
                (fst (make_prior z_dim)) =
    [0.5 * reduce_sum (map (fun p => snd p ^ 2 + fst p ^ 2 - 1 - 2 * ln (snd p))
                           (combine location scale))].
Proof.
  intros Hl Hs Hpos. simpl fst.
  rewrite kl_divergence_prior. simpl. unfold kl_row. do 3 f_equal.
  revert scale z_dim Hl Hs Hpos.
  induction location as [|l location IH]; intros scale z_dim Hl Hs Hpos;
    [reflexivity|].
  destruct scale as [|s scale]; [simpl in *; lia|].
  destruct z_dim as [|z_dim]; [discriminate|].
  inversion Hpos as [|? ? Hs0 Hpos']; subst.
  simpl. f_equal.
  - unfold kl_term. simpl.
    replace (1 / s) with (/ s) by (field; lra).
    rewrite ln_Rinv by exact Hs0. field.
  - apply IH; simpl in *; [lia | lia | exact Hpos'].
Qed.

(** ** Sampling *)

Lemma sample_row_nth (eps : nat -> R) (l s : list R) (k : nat) :
  length s = length l -> (k < length l)%nat ->
  nth k (sample_row eps l s) 0 = nth k l 0 + nth k s 0 * eps k.
Proof.
  unfold sample_row.
  change (eps k) with (eps (0 + k)%nat). generalize 0%nat as a.
  revert s k. induction l as [|x l IH]; intros s k a Hs Hk; simpl in Hk; [lia|].
  destruct s as [|y s]; [discriminate|]. simpl in Hs.
  destruct k as [|k]; simpl.
  - rewrite Nat.add_0_r. reflexivity.
  - rewrite IH by lia. rewrite Nat.add_succ_r. reflexivity.
Qed.

Lemma sample_row_length (eps : nat -> R) (l s : list R) :
  length s = length l -> length (sample_row eps l s) = length l.
Proof.
  intros Hs. unfold sample_row.
  rewrite length_map, !length_combine, length_seq. lia.
Qed.

Lemma sample_nth (d : MultivariateNormalDiag) (eps : nat -> nat -> R) (i : nat) :
  length (scale_diag d) = length (loc d) -> (i < length (loc d))%nat ->
  nth i (sample d eps) [] =
    sample_row (eps i) (nth i (loc d) []) (nth i (scale_diag d) []).
Proof.
  unfold sample. destruct d as [l s]. simpl.
  change (eps i) with (eps (0 + i)%nat). generalize 0%nat as a.
  revert s i. induction l as [|x l IH]; intros s i a Hs Hi; simpl in Hi; [lia|].
  destruct s as [|y s]; [discriminate|]. simpl in Hs.
  destruct i as [|i]; simpl.
  - rewrite Nat.add_0_r. reflexivity.
  - rewrite IH by lia. rewrite Nat.add_succ_r. reflexivity.
Qed.

Lemma sample_shape (d : MultivariateNormalDiag) (eps : nat -> nat -> R)
    (n z_dim : nat) :
  has_shape n z_dim (loc d) ->
  has_shape n z_dim (scale_diag d) ->
  has_shape n z_dim (sample d eps).
Proof.
  intros Hl Hs. pose proof Hl as [Hln _]. pose proof Hs as [Hsn _].
  assert (Hlen : length (sample d eps) = n) by (apply sample_length; assumption).
  split; [exact Hlen|].
  apply List.Forall_forall. intros r Hr.
  apply (In_nth _ _ []) in Hr as (i & Hi & <-).
  rewrite Hlen in Hi.
  rewrite sample_nth by lia.
  rewrite sample_row_length.
  - apply (shape_nth_length n z_dim); assumption.
  - rewrite (shape_nth_length n z_dim _ i Hs Hi).
    rewrite (shape_nth_length n z_dim _ i Hl Hi). reflexivity.
Qed.

(** X14: a draw has the shape of the location; entry [(i, k)] is the location
    plus the scale times the noise of that entry; without noise the draw is
    the location. *)
Theorem sample_reparameterized (d : MultivariateNormalDiag)
    (eps : nat -> nat -> R) (n z_dim : nat) :
  has_shape n z_dim (loc d) ->
  has_shape n z_dim (scale_diag d) ->
  has_shape n z_dim (sample d eps) /\
  (forall i k, (i < n)%nat -> (k < z_dim)%nat ->
     nth2 (sample d eps) i k =
       nth2 (loc d) i k + nth2 (scale_diag d) i k * eps i k) /\
  sample d (fun _ _ => 0) = loc d.
Proof.
  intros Hl Hs. pose proof Hl as [Hln Hlall]. pose proof Hs as [Hsn Hsall].
  assert (Hrow : forall i, (i < n)%nat ->
            length (nth i (scale_diag d) []) = length (nth i (loc d) [])).
  { intros i Hi.
    rewrite (shape_nth_length n z_dim _ i Hs Hi).
    rewrite (shape_nth_length n z_dim _ i Hl Hi). reflexivity. }
  assert (Hlen : length (sample d eps) = n) by (apply sample_length; assumption).
  split; [|split].
  - split; [exact Hlen|].
    apply List.Forall_forall. intros r Hr.
    apply (In_nth _ _ []) in Hr as (i & Hi & <-).
    rewrite Hlen in Hi.
    rewrite sample_nth by lia.
    rewrite sample_row_length by (apply Hrow; exact Hi).
    apply (shape_nth_length n z_dim); assumption.
  - intros i k Hi Hk. unfold nth2.
    rewrite sample_nth by lia.
    apply sample_row_nth; [apply Hrow; exact Hi|].
    rewrite (shape_nth_length n z_dim _ i Hl Hi). exact Hk.
  - apply (nth_ext _ _ [] []).
    + rewrite (sample_length d _ n); [symmetry|..]; assumption.
    + intros i Hi. rewrite (sample_length d _ n) in Hi by assumption.
      rewrite sample_nth by lia.
      apply (nth_ext _ _ 0 0).
      * apply sample_row_length, Hrow. exact Hi.
      * intros k Hk. rewrite sample_row_length in Hk by (apply Hrow; exact Hi).
        rewrite sample_row_nth by (try apply Hrow; assumption). lra.
Qed.

(** ** The forward pass *)


(** X12: on a batch of [n * m] values the posterior of U has location and
    scale of shape [n] by [z_dim], that of V of shape [m] by [z_dim], so have
    the two draws, and the decoder returns one row of [n * m] logits. *)
Theorem forward_pass_shapes (th : EncoderParams) (data : tensor)
    (z_dim n m : nat) (eps_u eps_v : nat -> nat -> R) :
  numel data = (n * m)%nat ->
  exists u_encoder v_encoder decoder_p flat,
    make_encoder th data z_dim n m = Some (u_encoder, v_encoder) /\
    has_shape n z_dim (loc u_encoder) /\
    has_shape n z_dim (scale_diag u_encoder) /\
    has_shape m z_dim (loc v_encoder) /\
    has_shape m z_dim (scale_diag v_encoder) /\
    has_shape n z_dim (sample u_encoder eps_u) /\
    has_shape m z_dim (sample v_encoder eps_v) /\
    make_decoder (sample u_encoder eps_u) (sample v_encoder eps_v) n m z_dim =
      Some decoder_p /\
    logits decoder_p = [flat] /\
    length flat = (n * m)%nat.
Proof.
  intros Hn.
  assert (Hd : has_shape n m (chunk n m (concat data)))
    by (apply chunk_shape; exact Hn).
  set (data' := chunk n m (concat data)) in *.
  pose proof (u_net_shape th data' z_dim) as Hu.
  pose proof (v_net_shape th data' z_dim m) as Hv.
  destruct Hd as [Hrows _]. rewrite Hrows in Hu.
  pose proof (make_encoder_some th data z_dim n m Hn) as He.
  cbv zeta in He. fold data' in He.
  match type of He with _ = Some (?u, ?v) =>
    set (u_encoder := u) in *; set (v_encoder := v) in *
  end.
  assert (Hul : has_shape n z_dim (loc u_encoder))
    by (apply slice_to_shape; exact Hu).
  assert (Hus : has_shape n z_dim (scale_diag u_encoder))
    by (apply scale_transform_shape, slice_from_shape; exact Hu).
  assert (Hvl : has_shape m z_dim (loc v_encoder))
    by (apply slice_from_shape; exact Hv).
  assert (Hvs : has_shape m z_dim (scale_diag v_encoder))
    by (apply scale_transform_shape, slice_to_shape; exact Hv).
  pose proof (sample_shape u_encoder eps_u n z_dim Hul Hus) as Hsu.
  pose proof (sample_shape v_encoder eps_v m z_dim Hvl Hvs) as Hsv.
  exists u_encoder, v_encoder. eexists _, _.
  split; [exact He|].
  repeat (split; [assumption|]).
  split; [apply make_decoder_some; [apply Hsu | apply Hsv]|].
  split; [reflexivity|].
  rewrite length_map.
  pose proof (tensordot_shape (sample u_encoder eps_u) (sample v_encoder eps_v))
    as Ht.
  rewrite (proj1 Hsu), (proj1 Hsv) in Ht.
  apply (concat_length_uniform _ _ _ Ht).
Qed.

Lemma u_net_map (th : EncoderParams) (z_dim : nat) :
  exists f, forall data, u_net th data z_dim = map f data.
Proof.
  eexists. intros data. unfold u_net, dense.
  rewrite !map_map. reflexivity.
Qed.

(** X13: the sample path works row by row: the output for a sample depends on
    the genotypes of that sample only, whatever else is in the batch. *)
Theorem u_net_rowwise (th : EncoderParams) (data : tensor) (z_dim i : nat)
    (row : list R) :
  nth_error data i = Some row ->
  exists out,
    u_net th [row] z_dim = [out] /\
    nth_error (u_net th data z_dim) i = Some out.
Proof.
  intros Hi. destruct (u_net_map th z_dim) as [f Hf].
  rewrite !Hf. exists (f row).
  split; [reflexivity|].
  rewrite nth_error_map, Hi. reflexivity.
Qed.

Section LossProperties.

Context `{Backend}.

(** X11: the loss nodes fail exactly on a batch that does not hold [N * M]
    values: the reshape of the encoder is the only step that can fail. *)
Theorem run_graph_fails_iff (c : Config) (mdl : Model) (run : nat)
    (th : EncoderParams) (data : tensor) :
  run_graph c mdl run th data = None <-> numel data <> (N c * M c)%nat.
Proof.
  split.
  - intros Hnone Hn.
    destruct (run_graph_some c mdl run th data Hn) as (ue & ve & dp & _ & _ & Hg).
    rewrite Hg in Hnone. discriminate.
  - intros Hn. apply run_graph_none. exact Hn.
Qed.


End LossProperties.

(** ** What a training run does to the variables and writes *)

Lemma skipn_cons_nth_error {A} (l : list A) (i : nat) (b : A) :
  nth_error l i = Some b -> skipn i l = b :: skipn (S i) l.
Proof.
  revert i. induction l as [|x l IH]; intros [|i] Hi; try discriminate.
  - injection Hi as ->. reflexivity.
  - simpl in Hi. rewrite (skipn_cons i x l). apply IH. exact Hi.
Qed.

Lemma summary_steps_app (a b : list event) :
  summary_steps (a ++ b) = summary_steps a ++ summary_steps b.
Proof.
  induction a as [|e a IH]; [reflexivity|].
  destruct e; simpl; rewrite IH; reflexivity.
Qed.

Lemma printed_app (a b : list event) :
  printed (a ++ b) = printed a ++ printed b.
Proof.
  induction a as [|e a IH]; [reflexivity|].
  destruct e; simpl; rewrite IH; reflexivity.
Qed.

Lemma fold_left_iter {A B} (f : A -> A) (l : list B) (x : A) :
  fold_left (fun st _ => f st) l x = Nat.iter (length l) f x.
Proof.
  revert x. induction l as [|b l IH]; intros x; [reflexivity|].
  simpl fold_left. rewrite IH. simpl length.
  rewrite Nat.iter_succ_r. reflexivity.
Qed.

Section StepProperties.

Context `{Backend}.
Variables (c : Config) (mdl : Model) (dataset : list batch).

Lemma while_true_pass_steps (epoch : nat) :
  Forall (well_shaped c) dataset ->
  forall (k i : nat) (s : Session) (fuel : nat),
    cursor s = Some i ->
    (i + k = length dataset)%nat ->
    (k < fuel)%nat ->
    exists s',
      while_true fuel c mdl dataset epoch s = Some (Returned s') /\
      (runs s', variables s') =
        fold_left (train_on c mdl) (skipn i dataset) (runs s, variables s) /\
      summary_steps (trace s') = summary_steps (trace s) ++ repeat epoch k /\
      length (printed (trace s')) = (length (printed (trace s)) + k)%nat.
Proof.
  intros Hall. induction k as [|k IH]; intros i s fuel Hc Hik Hf;
    (destruct fuel as [|fuel]; [lia|]); simpl.
  - rewrite (run_step_exhausted c mdl dataset epoch s i Hc)
      by (apply nth_error_None; lia).
    eexists. split; [reflexivity|].
    rewrite skipn_all2 by lia. simpl.
    rewrite summary_steps_app, printed_app. simpl.
    rewrite !app_nil_r. repeat split; lia.
  - destruct (nth_error dataset i) as [b|] eqn:Hb;
      [|apply nth_error_None in Hb; lia].
    assert (Hw : well_shaped c b).
    { rewrite List.Forall_forall in Hall. apply Hall.
      eapply nth_error_In. exact Hb. }
    destruct (run_graph_some c mdl (runs s) (fst (variables s))
                (cast_float32 b) Hw) as (ue & ve & dp & _ & _ & Hg).
    cbv zeta in Hg.
    rewrite (run_step_pull c mdl dataset epoch s i b _ Hc Hb Hg).
    match goal with
    | |- context [while_true fuel c mdl dataset epoch ?s1] =>
        destruct (IH (S i) s1 fuel) as (s' & Hrun & Hvars & Hsum & Hpr);
        [reflexivity | lia | lia |]
    end.
    exists s'. split; [exact Hrun|].
    rewrite (skipn_cons_nth_error _ _ _ Hb).
    split; [exact Hvars|].
    rewrite Hsum, Hpr. simpl trace.
    rewrite !summary_steps_app, !printed_app. simpl.
    rewrite !app_nil_r, <- app_assoc, !length_app. simpl.
    split; [reflexivity | lia].
Qed.

Lemma for_epoch_steps (fuel : nat) :
  Forall (well_shaped c) dataset ->
  (length dataset < fuel)%nat ->
  forall (range : list nat) (s : Session),
    exists s',
      for_epoch fuel c mdl dataset range s = Some (Returned s') /\
      (runs s', variables s') =
        Nat.iter (length range) (train_pass c mdl dataset) (runs s, variables s) /\
      summary_steps (trace s') =
        summary_steps (trace s)
        ++ flat_map (fun epoch => repeat epoch (length dataset)) range /\
      length (printed (trace s')) =
        (length (printed (trace s)) + length range * length dataset)%nat.
Proof.
  intros Hall Hf. induction range as [|epoch range IH]; intros s.
  - exists s. simpl. rewrite app_nil_r. repeat split; lia.
  - cbn [for_epoch].
    destruct (while_true_pass_steps epoch Hall (length dataset) 0
                (run_initializer s) fuel)
      as (s1 & Hrun & Hvars & Hsum & Hpr); [reflexivity | lia | exact Hf |].
    rewrite Hrun.
    destruct (IH s1) as (s' & Hrun' & Hvars' & Hsum' & Hpr').
    exists s'. split; [exact Hrun'|].
    split; [|split].
    + rewrite Hvars'. simpl length. rewrite Nat.iter_succ_r.
      rewrite Hvars. reflexivity.
    + rewrite Hsum', Hsum. simpl trace.
      rewrite summary_steps_app. simpl.
      rewrite !app_nil_r, <- app_assoc. reflexivity.
    + rewrite Hpr', Hpr. simpl trace. rewrite printed_app. simpl.
      rewrite length_app. simpl. lia.
Qed.

End StepProperties.

Section RunProperties.

Context `{Backend}.

(** X18: over batches of the right size, training applies the training node
    once per batch, in the order of the data source, pass after pass, with
    the number of the run counting up from 0: the variables and the number
    of runs at the end are [epochs] passes applied to the initial ones. *)
Theorem training_applies_optimizer (c : Config) (dataset : list batch)
    (vars : EncoderParams * Slots) (fuel : nat) :
  Forall (well_shaped c) dataset ->
  (length dataset < fuel)%nat ->
  exists mdl s,
    build_model c = Some mdl /\
    notebook fuel c dataset vars = Some (inr (Returned s)) /\
    (runs s, variables s) =
      Nat.iter (epochs c) (train_pass c mdl dataset) (O, vars).
Proof.
  intros Hall Hf.
  set (mdl := {| model_u_prior := fst (make_prior (D c));
                 model_v_prior := snd (make_prior (D c)) |}).
  destruct (for_epoch_steps c mdl dataset fuel Hall Hf (seq 0 (epochs c))
              (new_session vars)) as (s & Hrun & Hvars & _).
  exists mdl, s. split; [apply build_with_some|].
  split.
  - unfold notebook, build_model. rewrite build_with_some. fold mdl.
    unfold training. rewrite Hrun. reflexivity.
  - rewrite length_seq in Hvars. exact Hvars.
Qed.

(** X19: over batches of the right size, every summary of epoch [e] is written
    under step [e]: the steps of the summaries are each epoch number
    repeated once per batch, and one value is printed per run. *)
Theorem summaries_tagged_by_epoch (c : Config) (dataset : list batch)
    (vars : EncoderParams * Slots) (fuel : nat) :
  Forall (well_shaped c) dataset ->
  (length dataset < fuel)%nat ->
  exists s,
    notebook fuel c dataset vars = Some (inr (Returned s)) /\
    summary_steps (trace s) =
      flat_map (fun epoch => repeat epoch (length dataset)) (seq 0 (epochs c)) /\
    length (printed (trace s)) = (epochs c * length dataset)%nat /\
    length (printed (trace s)) = runs s.
Proof.
  intros Hall Hf.
  set (mdl := {| model_u_prior := fst (make_prior (D c));
                 model_v_prior := snd (make_prior (D c)) |}).
  destruct (for_epoch_steps c mdl dataset fuel Hall Hf (seq 0 (epochs c))
              (new_session vars)) as (s & Hrun & _ & Hsum & Hpr).
  destruct (for_epoch_passes c mdl dataset fuel Hall Hf (seq 0 (epochs c))
              (new_session vars)) as (s2 & Hrun2 & Hruns & _).
  rewrite Hrun in Hrun2. injection Hrun2 as <-.
  exists s. split.
  - unfold notebook, build_model. rewrite build_with_some. fold mdl.
    unfold training. rewrite Hrun. reflexivity.
  - rewrite length_seq in Hpr, Hruns. simpl in Hsum, Hpr, Hruns.
    split; [exact Hsum|]. split; [exact Hpr | lia].
Qed.

(** X22: on a data source without batches every epoch only initializes the
    iterator and meets the end of the data: training ends normally, no run
    happened and the variables are the initial ones. *)
Theorem training_on_empty_source (c : Config) (mdl : Model)
    (vars : EncoderParams * Slots) (fuel : nat) :
  (0 < fuel)%nat ->
  exists s,
    training fuel c mdl [] vars = Some (Returned s) /\
    variables s = vars /\
    runs s = O /\
    trace s = concat (repeat [Initialized; Exhausted] (epochs c)).
Proof.
  intros Hf. unfold training.
  assert (Hgen : forall range s0,
            exists s,
              for_epoch fuel c mdl [] range s0 = Some (Returned s) /\
              variables s = variables s0 /\ runs s = runs s0 /\
              trace s = trace s0
                        ++ concat (repeat [Initialized; Exhausted] (length range))).
  { induction range as [|epoch range IH]; intros s0.
    - exists s0. simpl. rewrite app_nil_r. repeat split; reflexivity.
    - cbn [for_epoch]. destruct fuel as [|fuel']; [lia|].
      cbn [while_true].
      rewrite (run_step_exhausted c mdl [] epoch (run_initializer s0) 0)
        by reflexivity.
      destruct (IH (log [Exhausted] (run_initializer s0)))
        as (s & Hrun & Hv & Hr & Ht).
      exists s. split; [exact Hrun|].
      split; [rewrite Hv; reflexivity|].
      split; [rewrite Hr; reflexivity|].
      rewrite Ht. simpl. rewrite <- !app_assoc. reflexivity. }
  destruct (Hgen (seq 0 (epochs c)) (new_session vars)) as (s & Hrun & Hv & Hr & Ht).
  exists s. rewrite length_seq in Ht.
  repeat split; assumption.
Qed.

End RunProperties.

Section SummaryProperties.

Context `{Backend}.
Variables (c : Config) (mdl : Model) (dataset : list batch).

Lemma run_graph_elbo (run : nat) (th : EncoderParams) (data : tensor) (g : Graph) :
  run_graph c mdl run th data = Some g ->
  elbo g = - u_kl g - v_kl g + likelihood g.
Proof.
  intros Hg.
  destruct (Nat.eq_dec (numel data) (N c * M c)%nat) as [Hn|Hn];
    [|rewrite run_graph_none in Hg by exact Hn; discriminate].
  destruct (run_graph_some c mdl run th data Hn) as (ue & ve & dp & _ & _ & Hg').
  rewrite Hg' in Hg. cbv zeta in Hg. injection Hg as <-. reflexivity.
Qed.

Lemma run_step_summaries (epoch : nat) (s : Session) :
  Forall summary_consistent (trace s) ->
  Forall summary_consistent (trace (session_of (run_step c mdl dataset epoch s))).
Proof.
  intros Hs. unfold run_step.
  destruct (cursor s) as [i|]; [|exact Hs].
  destruct (nth_error dataset i) as [b|].
  - destruct (run_graph c mdl (runs s) (fst (variables s)) (cast_float32 b))
      as [g|] eqn:Hg; simpl.
    + apply Forall_app. split; [apply Forall_app; split; [exact Hs|]|].
      * repeat constructor.
      * constructor; [exact I|]. constructor; [|constructor].
        simpl. exists (elbo g), (- u_kl g), (- v_kl g), (likelihood g).
        split; [reflexivity|].
        rewrite (run_graph_elbo _ _ _ _ Hg). lra.
    + apply Forall_app. split; [exact Hs | repeat constructor].
  - simpl. apply Forall_app. split; [exact Hs | repeat constructor].
Qed.

Lemma while_true_summaries (epoch : nat) (fuel : nat) :
  forall (s : Session) (r : outcome),
    Forall summary_consistent (trace s) ->
    while_true fuel c mdl dataset epoch s = Some r ->
    Forall summary_consistent (trace (session_of r)).
Proof.
  induction fuel as [|fuel IH]; intros s r Hs Hr; [discriminate|].
  simpl in Hr.
  pose proof (run_step_summaries epoch s Hs) as Hstep.
  destruct (run_step c mdl dataset epoch s) as [s1 | e s1].
  - apply (IH s1 r Hstep Hr).
  - destruct e; injection Hr as <-; exact Hstep.
Qed.

Lemma for_epoch_summaries (fuel : nat) :
  forall (range : list nat) (s : Session) (r : outcome),
    Forall summary_consistent (trace s) ->
    for_epoch fuel c mdl dataset range s = Some r ->
    Forall summary_consistent (trace (session_of r)).
Proof.
  induction range as [|epoch range IH]; intros s r Hs Hr; simpl in Hr.
  - injection Hr as <-. exact Hs.
  - destruct (while_true fuel c mdl dataset epoch (run_initializer s))
      as [r1|] eqn:Hw; [|discriminate].
    assert (H1 : Forall summary_consistent (trace (session_of r1))).
    { apply (while_true_summaries epoch fuel (run_initializer s) r1); [|exact Hw].
      simpl. apply Forall_app. split; [exact Hs | repeat constructor]. }
    destruct r1 as [s1 | e s1].
    + apply (IH s1 r H1 Hr).
    + injection Hr as <-. exact H1.
Qed.

(** X20: whatever the batches are, training ends, and every summary that it
    wrote, also before an error, holds the scalars [elbo], [minus_u_kl],
    [minus_v_kl] and [likelihood], in this order, with
    [elbo = minus_u_kl + minus_v_kl + likelihood]. *)
Theorem summaries_are_consistent (vars : EncoderParams * Slots) (fuel : nat) :
  (length dataset < fuel)%nat ->
  exists r,
    training fuel c mdl dataset vars = Some r /\
    Forall summary_consistent (trace (session_of r)).
Proof.
  intros Hf. unfold training.
  destruct (for_epoch_replay c mdl dataset fuel Hf (seq 0 (epochs c))
              (new_session vars)) as (r & _ & Hr & _);
    [exists None; reflexivity|].
  exists r. split; [exact Hr|].
  apply (for_epoch_summaries fuel (seq 0 (epochs c)) (new_session vars) r);
    [constructor | exact Hr].
Qed.

End SummaryProperties.

(** ** From the records of the file to a training run *)

Lemma decode_tfrecords_some (genotypes : list Byte.byte) (m : nat) :
  length genotypes = m ->
  decode_tfrecords genotypes m = Some [decode_raw genotypes].
Proof.
  intros Hlen. unfold decode_tfrecords.
  replace (length (decode_raw genotypes)) with m
    by (unfold decode_raw; rewrite length_map; symmetry; exact Hlen).
  rewrite Nat.mul_1_l, Nat.eqb_refl. reflexivity.
Qed.

Lemma mapM_decode (features : list (list Byte.byte)) (m : nat) :
  Forall (fun f => length f = m) features ->
  mapM (fun genotypes => decode_tfrecords genotypes m) features =
    Some (map (fun f => [decode_raw f]) features).
Proof.
  induction 1 as [|f features Hf _ IH]; [reflexivity|].
  cbn [mapM]. rewrite IH, (decode_tfrecords_some f m Hf). reflexivity.
Qed.

Lemma numel_stack (recs : list (list (list Z))) (m : nat) :
  Forall (fun rec => exists row, rec = [row] /\ length row = m) recs ->
  numel (cast_float32 (stack recs)) = (length recs * m)%nat.
Proof.
  unfold numel, cast_float32, stack.
  induction 1 as [|rec recs (row & -> & Hrow) _ IH]; [reflexivity|].
  simpl. rewrite length_app, length_map, IH, Hrow. reflexivity.
Qed.

Lemma decoded_records (features : list (list Byte.byte)) (m : nat) :
  Forall (fun f => length f = m) features ->
  Forall (fun rec => exists row, rec = [row] /\ length row = m)
         (map (fun f => [decode_raw f]) features).
Proof.
  intros Hall. apply List.Forall_forall. intros rec Hrec.
  apply in_map_iff in Hrec as (f & <- & Hf).
  rewrite List.Forall_forall in Hall.
  exists (decode_raw f). split; [reflexivity|].
  unfold decode_raw. rewrite length_map. apply Hall. exact Hf.
Qed.

Lemma nth_error_length_char {A} (l : list A) (k : nat) :
  nth_error l k = None ->
  (forall i, (i < k)%nat -> nth_error l i <> None) ->
  length l = k.
Proof.
  intros Hk Hlt. apply nth_error_None in Hk.
  destruct k as [|k]; [lia|].
  specialize (Hlt k (Nat.lt_succ_diag_r k)).
  apply nth_error_Some in Hlt. lia.
Qed.

Lemma pipeline_batch_numel (recs : list (list (list Z))) (size m i : nat)
    (b : list (list (list Z))) :
  (0 < size)%nat ->
  Forall (fun rec => exists row, rec = [row] /\ length row = m) recs ->
  nth_error (take_batches (length recs) size recs) i = Some b ->
  (i * size < length recs)%nat /\
  numel (cast_float32 (stack b)) =
    (Nat.min size (length recs - i * size) * m)%nat.
Proof.
  intros Hs Hall Hb.
  rewrite take_batches_nth in Hb by lia.
  destruct (Nat.ltb_spec (i * size) (length recs)); [|discriminate].
  injection Hb as <-. split; [assumption|].
  rewrite (numel_stack _ m) by (apply Forall_take, Forall_drop; exact Hall).
  rewrite length_firstn, length_skipn. reflexivity.
Qed.

Section PipelineProperties.

Context `{Backend}.

(** X5: when the file holds [k * N] records of [M] bytes each, the pipeline
    delivers [k] batches and the notebook ends normally after
    [epochs * k] steps. *)
Theorem whole_batches_train (c : Config) (features : list (list Byte.byte))
    (vars : EncoderParams * Slots) (k fuel : nat) :
  (0 < N c)%nat ->
  Forall (fun f => length f = M c) features ->
  length features = (k * N c)%nat ->
  (k < fuel)%nat ->
  exists batches s,
    input_pipeline c features = Some batches /\
    length batches = k /\
    Forall (well_shaped c) batches /\
    notebook fuel c batches vars = Some (inr (Returned s)) /\
    runs s = (epochs c * k)%nat.
Proof.
  intros HN Hall Hlen Hf.
  set (recs := map (fun f => [decode_raw f]) features).
  assert (Hrecs : Forall (fun rec => exists row, rec = [row] /\ length row = M c)
                         recs) by (apply decoded_records; exact Hall).
  assert (Hn : length recs = (k * N c)%nat)
    by (unfold recs; rewrite length_map; exact Hlen).
  set (bs := take_batches (length recs) (N c) recs).
  assert (Hpipe : input_pipeline c features = Some (map stack bs)).
  { unfold input_pipeline. rewrite (mapM_decode _ _ Hall). fold recs.
    cbn [mbind option_bind]. unfold dataset_batch, batch_size.
    destruct (Nat.eqb_spec (N c) 0); [lia | reflexivity]. }
  assert (Hk : length bs = k).
  { apply nth_error_length_char.
    - unfold bs. rewrite take_batches_nth by lia.
      destruct (Nat.ltb_spec (k * N c) (length recs)); [lia | reflexivity].
    - intros i Hi. unfold bs. rewrite take_batches_nth by lia.
      destruct (Nat.ltb_spec (i * N c) (length recs)); [discriminate | nia]. }
  assert (Hws : Forall (well_shaped c) (map stack bs)).
  { apply List.Forall_forall. intros b Hb.
    apply in_map_iff in Hb as (b0 & <- & Hb0).
    apply In_nth_error in Hb0 as [i Hi].
    destruct (pipeline_batch_numel recs (N c) (M c) i b0 HN Hrecs Hi)
      as [Hlt Hnum].
    assert (Hik : (i < k)%nat) by nia.
    pose proof (Nat.mul_le_mono_r (S i) k (N c) Hik) as Hmul. simpl in Hmul.
    unfold well_shaped. rewrite Hnum. f_equal. lia. }
  set (mdl := {| model_u_prior := fst (make_prior (D c));
                 model_v_prior := snd (make_prior (D c)) |}).
  assert (Hf' : (length (map stack bs) < fuel)%nat)
    by (rewrite length_map, Hk; exact Hf).
  destruct (for_epoch_passes c mdl (map stack bs) fuel Hws Hf'
              (seq 0 (epochs c)) (new_session vars)) as (s & Hrun & Hruns & _).
  exists (map stack bs), s.
  split; [exact Hpipe|].
  split; [rewrite length_map; exact Hk|].
  split; [exact Hws|].
  split.
  - unfold notebook, build_model. rewrite build_with_some. fold mdl.
    unfold training. rewrite Hrun. reflexivity.
  - rewrite Hruns, length_seq, length_map, Hk. simpl. reflexivity.
Qed.

(** X6: when the number of records is not a multiple of [N] (and there is at
    least one site), the last batch is short: the notebook runs the [q]
    steps on the whole batches of the first epoch and stops with an error in
    the step on the last batch. *)
Theorem leftover_records_stop_training (c : Config)
    (features : list (list Byte.byte)) (vars : EncoderParams * Slots)
    (q r fuel : nat) :
  (0 < M c)%nat ->
  (0 < epochs c)%nat ->
  Forall (fun f => length f = M c) features ->
  length features = (q * N c + r)%nat ->
  (0 < r < N c)%nat ->
  (q < fuel)%nat ->
  exists batches s,
    input_pipeline c features = Some batches /\
    length batches = S q /\
    notebook fuel c batches vars = Some (inr (Raised InvalidArgumentError s)) /\
    runs s = S q /\
    data_events (trace s) = Initialized :: map Pulled (seq 0 (S q)).
Proof.
  intros HM He Hall Hlen Hr Hf.
  assert (HN : (0 < N c)%nat) by lia.
  set (recs := map (fun f => [decode_raw f]) features).
  assert (Hrecs : Forall (fun rec => exists row, rec = [row] /\ length row = M c)
                         recs) by (apply decoded_records; exact Hall).
  assert (Hn : length recs = (q * N c + r)%nat)
    by (unfold recs; rewrite length_map; exact Hlen).
  set (bs := take_batches (length recs) (N c) recs).
  assert (Hpipe : input_pipeline c features = Some (map stack bs)).
  { unfold input_pipeline. rewrite (mapM_decode _ _ Hall). fold recs.
    cbn [mbind option_bind]. unfold dataset_batch, batch_size.
    destruct (Nat.eqb_spec (N c) 0); [lia | reflexivity]. }
  assert (Hk : length bs = S q).
  { apply nth_error_length_char.
    - unfold bs. rewrite take_batches_nth by lia.
      destruct (Nat.ltb_spec (S q * N c) (length recs)); [lia | reflexivity].
    - intros i Hi. unfold bs. rewrite take_batches_nth by lia.
      destruct (Nat.ltb_spec (i * N c) (length recs)); [discriminate | nia]. }
  assert (Hfull : Forall (well_shaped c) (firstn q (map stack bs))).
  { apply List.Forall_forall. intros b Hb.
    apply In_nth_error in Hb as [i Hi].
    rewrite nth_error_firstn in Hi.
    destruct (Nat.ltb_spec i q) as [Hiq|]; [|discriminate].
    rewrite nth_error_map in Hi.
    destruct (nth_error bs i) as [b0|] eqn:Hb0; [|discriminate].
    injection Hi as <-.
    destruct (pipeline_batch_numel recs (N c) (M c) i b0 HN Hrecs Hb0)
      as [Hlt Hnum].
    pose proof (Nat.mul_le_mono_r (S i) q (N c) Hiq) as Hmul. simpl in Hmul.
    unfold well_shaped. rewrite Hnum. f_equal. lia. }
  destruct (nth_error bs q) as [bq|] eqn:Hbq;
    [|apply nth_error_None in Hbq; lia].
  destruct (pipeline_batch_numel recs (N c) (M c) q bq HN Hrecs Hbq)
    as [_ Hnum].
  assert (Hshort : numel (cast_float32 (stack bq)) <> (batch_size c * M c)%nat).
  { rewrite Hnum. unfold batch_size.
    replace (Nat.min (N c) (length recs - q * N c)) with r by lia.
    nia. }
  set (mdl := {| model_u_prior := fst (make_prior (D c));
                 model_v_prior := snd (make_prior (D c)) |}).
  assert (Hq : nth_error (map stack bs) q = Some (stack bq))
    by (rewrite nth_error_map, Hbq; reflexivity).
  destruct (training_abort c mdl (map stack bs) vars fuel q (stack bq)
              Hfull Hq Hshort He Hf) as (s & Hrun & Hruns & Htr).
  exists (map stack bs), s.
  split; [exact Hpipe|].
  split; [rewrite length_map; exact Hk|].
  split; [|split; [exact Hruns | exact Htr]].
  unfold notebook, build_model. rewrite build_with_some. fold mdl.
  rewrite Hrun. reflexivity.
Qed.

End PipelineProperties.

(** ** The further properties at example inputs *)

Lemma decode_tfrecords_spec_witness :
  length [Byte.x01; Byte.x00; Byte.x02] = 3%nat /\
  exists row,
    decode_tfrecords [Byte.x01; Byte.x00; Byte.x02] 3 = Some [row] /\
    length row = 3%nat /\
    nth_error row 2 = Some 2%Z.
Proof.
  split; [reflexivity|].
  destruct (proj1 (decode_tfrecords_spec [Byte.x01; Byte.x00; Byte.x02] 3) eq_refl)
    as (row & Hd & Hl & _ & Hk).
  exists row. split; [exact Hd|]. split; [exact Hl|].
  apply (Hk 2%nat Byte.x02 eq_refl). reflexivity.
Defined.

Lemma decode_tfrecords_injective_witness :
  decode_tfrecords [Byte.x01; Byte.xff] 2 = Some [[1%Z; (-1)%Z]] /\
  [Byte.x01; Byte.xff] = [Byte.x01; Byte.xff].
Proof.
  split; [reflexivity|].
  exact (decode_tfrecords_injective [Byte.x01; Byte.xff] [Byte.x01; Byte.xff] 2
           [[1%Z; (-1)%Z]] eq_refl eq_refl).
Defined.

Lemma dataset_batch_slices_witness :
  (0 < 2)%nat /\
  exists batches,
    dataset_batch 2 [1%nat; 2%nat; 3%nat] = Some batches /\
    nth_error batches 1 = Some [3%nat] /\
    nth_error batches 2 = None.
Proof.
  assert (Hs : (0 < 2)%nat) by lia.
  split; [exact Hs|].
  destruct (proj2 (dataset_batch_slices 2 [1%nat; 2%nat; 3%nat]) Hs)
    as (batches & Hb & Hnth).
  exists batches. split; [exact Hb|].
  split; [exact (Hnth 1%nat) | exact (Hnth 2%nat)].
Defined.

Lemma dataset_batch_partition_witness :
  dataset_batch 2 [1%nat; 2%nat; 3%nat] = Some [[1%nat; 2%nat]; [3%nat]] /\
  concat [[1%nat; 2%nat]; [3%nat]] = [1%nat; 2%nat; 3%nat].
Proof.
  split; [reflexivity|].
  exact (proj1 (dataset_batch_partition 2 [1%nat; 2%nat; 3%nat]
                  [[1%nat; 2%nat]; [3%nat]] eq_refl)).
Defined.

Lemma reshape_keeps_elements_witness :
  reshape [[1; 2]; [3; 4]] 1 4 = Some [[1; 2; 3; 4]] /\
  has_shape 1 4 [[1; 2; 3; 4]].
Proof.
  split; [reflexivity|].
  exact (proj1 (reshape_keeps_elements [[1; 2]; [3; 4]] [[1; 2; 3; 4]] 1 4 eq_refl)).
Defined.

Lemma reshape_same_shape_witness :
  has_shape 2 1 [[1]; [0]] /\ reshape [[1]; [0]] 2 1 = Some [[1]; [0]].
Proof.
  assert (Hs : has_shape 2 1 [[1]; [0]])
    by (split; [reflexivity | repeat constructor]).
  split; [exact Hs | exact (reshape_same_shape [[1]; [0]] 2 1 Hs)].
Defined.

Lemma transpose_involutive_witness :
  has_shape 1 2 [[1; 2]] /\ transpose 1 (transpose 2 [[1; 2]]) = [[1; 2]].
Proof.
  assert (Hs : has_shape 1 2 [[1; 2]])
    by (split; [reflexivity | repeat constructor]).
  split; [exact Hs | exact (proj1 (transpose_involutive 1 2 [[1; 2]] Hs))].
Defined.

Lemma make_decoder_succeeds_iff_witness :
  has_shape 1 2 [[1; 2]] /\ has_shape 1 2 [[3; 4]] /\
  (1 * 1 <> 2 * 1)%nat /\
  make_decoder [[1; 2]] [[3; 4]] 1 2 2 = None.
Proof.
  assert (Hu : has_shape 1 2 [[1; 2]]) by (split; [reflexivity | repeat constructor]).
  assert (Hv : has_shape 1 2 [[3; 4]]) by (split; [reflexivity | repeat constructor]).
  assert (Hn : (1 * 1 <> 2 * 1)%nat) by (simpl; lia).
  split; [exact Hu|]. split; [exact Hv|]. split; [exact Hn|].
  exact (proj2 (make_decoder_succeeds_iff [[1; 2]] [[3; 4]] 1 1 2 1 2 2 Hu Hv) Hn).
Defined.


Lemma kl_row_standard_prior_witness :
  Forall (fun s => 0 < s) [2; 0.5] /\
  kl_divergence {| loc := [[1; -3]]; scale_diag := [[2; 0.5]] |}
                (fst (make_prior 2)) =
    [0.5 * reduce_sum (map (fun p => snd p ^ 2 + fst p ^ 2 - 1 - 2 * ln (snd p))
                           (combine [1; -3] [2; 0.5]))].
Proof.
  assert (Hpos : Forall (fun s => 0 < s) [2; 0.5]) by (repeat constructor; lra).
  split; [exact Hpos|].
  exact (kl_row_standard_prior [1; -3] [2; 0.5] 2 eq_refl eq_refl Hpos).
Defined.

Lemma sample_reparameterized_witness :
  has_shape 1 2 [[1; 2]] /\ has_shape 1 2 [[3; 4]] /\
  sample {| loc := [[1; 2]]; scale_diag := [[3; 4]] |} (fun _ _ => 0) = [[1; 2]].
Proof.
  assert (Hl : has_shape 1 2 [[1; 2]]) by (split; [reflexivity | repeat constructor]).
  assert (Hs : has_shape 1 2 [[3; 4]]) by (split; [reflexivity | repeat constructor]).
  split; [exact Hl|]. split; [exact Hs|].
  exact (proj2 (proj2 (sample_reparameterized
                         {| loc := [[1; 2]]; scale_diag := [[3; 4]] |}
                         (fun _ _ => 0) 1 2 Hl Hs))).
Defined.

Lemma forward_pass_shapes_witness :
  numel [[1]; [0]] = (2 * 1)%nat /\
  exists u_encoder v_encoder,
    make_encoder zero_params [[1]; [0]] 1 2 1 = Some (u_encoder, v_encoder) /\
    has_shape 2 1 (sample u_encoder (fun _ _ => 0)) /\
    has_shape 1 1 (sample v_encoder (fun _ _ => 0)).
Proof.
  split; [reflexivity|].
  destruct (forward_pass_shapes zero_params [[1]; [0]] 1 2 1
              (fun _ _ => 0) (fun _ _ => 0) eq_refl)
    as (ue & ve & dp & flat & He & _ & _ & _ & _ & Hu & Hv & _).
  exists ue, ve. split; [exact He|]. split; [exact Hu | exact Hv].
Defined.

Lemma u_net_rowwise_witness :
  nth_error [[1]; [0]] 1 = Some [0] /\
  exists out,
    u_net zero_params [[0]] 1 = [out] /\
    nth_error (u_net zero_params [[1]; [0]] 1) 1 = Some out.
Proof.
  split; [reflexivity|].
  exact (u_net_rowwise zero_params [[1]; [0]] 1 1 [0] eq_refl).
Defined.

Lemma run_graph_fails_iff_witness :
  numel [[2]] <> (N small_config * M small_config)%nat /\
  @run_graph ablation_backend small_config small_model 0 zero_params [[2]] = None.
Proof.
  assert (Hn : numel [[2]] <> (N small_config * M small_config)%nat)
    by (intros Heq; vm_compute in Heq; discriminate).
  split; [exact Hn|].
  exact (proj2 (@run_graph_fails_iff ablation_backend small_config small_model 0
                  zero_params [[2]]) Hn).
Defined.


Lemma training_applies_optimizer_witness :
  Forall (well_shaped small_config) even_dataset /\
  (length even_dataset < 3)%nat /\
  exists mdl s,
    build_model small_config = Some mdl /\
    @notebook ablation_backend 3 small_config even_dataset ablation_vars =
      Some (inr (Returned s)) /\
    runs s = 4%nat.
Proof.
  assert (Hall : Forall (well_shaped small_config) even_dataset)
    by (repeat constructor).
  assert (Hf : (length even_dataset < 3)%nat) by (simpl; lia).
  split; [exact Hall|]. split; [exact Hf|].
  destruct (@training_applies_optimizer ablation_backend small_config
              even_dataset ablation_vars 3 Hall Hf) as (mdl & s & Hm & Hrun & Hv).
  exists mdl, s. split; [exact Hm|]. split; [exact Hrun|].
  exact (f_equal fst Hv).
Defined.

Lemma summaries_tagged_by_epoch_witness :
  Forall (well_shaped small_config) even_dataset /\
  (length even_dataset < 3)%nat /\
  exists s,
    @notebook ablation_backend 3 small_config even_dataset ablation_vars =
      Some (inr (Returned s)) /\
    summary_steps (trace s) = [0; 0; 1; 1]%nat.
Proof.
  assert (Hall : Forall (well_shaped small_config) even_dataset)
    by (repeat constructor).
  assert (Hf : (length even_dataset < 3)%nat) by (simpl; lia).
  split; [exact Hall|]. split; [exact Hf|].
  destruct (@summaries_tagged_by_epoch ablation_backend small_config
              even_dataset ablation_vars 3 Hall Hf) as (s & Hrun & Hsum & _).
  exists s. split; [exact Hrun | exact Hsum].
Defined.

Lemma training_on_empty_source_witness :
  (0 < 1)%nat /\
  exists s,
    @training ablation_backend 1 small_config small_model [] ablation_vars =
      Some (Returned s) /\
    variables s = ablation_vars /\
    runs s = O.
Proof.
  assert (Hf : (0 < 1)%nat) by lia.
  split; [exact Hf|].
  destruct (@training_on_empty_source ablation_backend small_config small_model
              ablation_vars 1 Hf) as (s & Hrun & Hv & Hr & _).
  exists s. repeat split; assumption.
Defined.

Lemma summaries_are_consistent_witness :
  (length short_dataset < 3)%nat /\
  exists r,
    @training ablation_backend 3 small_config small_model short_dataset
      ablation_vars = Some r /\
    Forall summary_consistent (trace (session_of r)).
Proof.
  assert (Hf : (length short_dataset < 3)%nat) by (simpl; lia).
  split; [exact Hf|].
  exact (@summaries_are_consistent ablation_backend small_config small_model
           short_dataset ablation_vars 3 Hf).
Defined.

Lemma whole_batches_train_witness :
  (0 < N small_config)%nat /\
  Forall (fun f => length f = M small_config)
         [[Byte.x01]; [Byte.x00]; [Byte.x02]; [Byte.x01]] /\
  exists batches s,
    input_pipeline small_config [[Byte.x01]; [Byte.x00]; [Byte.x02]; [Byte.x01]] =
      Some batches /\
    length batches = 2%nat /\
    @notebook ablation_backend 3 small_config batches ablation_vars =
      Some (inr (Returned s)) /\
    runs s = 4%nat.
Proof.
  assert (HN : (0 < N small_config)%nat) by (simpl; lia).
  assert (Hall : Forall (fun f => length f = M small_config)
                        [[Byte.x01]; [Byte.x00]; [Byte.x02]; [Byte.x01]])
    by (repeat constructor).
  assert (Hk : (2 < 3)%nat) by lia.
  split; [exact HN|]. split; [exact Hall|].
  destruct (@whole_batches_train ablation_backend small_config
              [[Byte.x01]; [Byte.x00]; [Byte.x02]; [Byte.x01]] ablation_vars 2 3
              HN Hall eq_refl Hk) as (batches & s & Hp & Hl & _ & Hrun & Hruns).
  exists batches, s. repeat split; assumption.
Defined.

Lemma leftover_records_stop_training_witness :
  Forall (fun f => length f = M small_config)
         [[Byte.x01]; [Byte.x00]; [Byte.x02]] /\
  length [[Byte.x01]; [Byte.x00]; [Byte.x02]] = (1 * N small_config + 1)%nat /\
  exists batches s,
    input_pipeline small_config [[Byte.x01]; [Byte.x00]; [Byte.x02]] =
      Some batches /\
    @notebook ablation_backend 3 small_config batches ablation_vars =
      Some (inr (Raised InvalidArgumentError s)) /\
    runs s = 2%nat.
Proof.
  assert (HM : (0 < M small_config)%nat) by (simpl; lia).
  assert (He : (0 < epochs small_config)%nat) by (simpl; lia).
  assert (Hall : Forall (fun f => length f = M small_config)
                        [[Byte.x01]; [Byte.x00]; [Byte.x02]])
    by (repeat constructor).
  assert (Hr : (0 < 1 < N small_config)%nat) by (simpl; lia).
  assert (Hf : (1 < 3)%nat) by lia.
  split; [exact Hall|]. split; [reflexivity|].
  destruct (@leftover_records_stop_training ablation_backend small_config
              [[Byte.x01]; [Byte.x00]; [Byte.x02]] ablation_vars 1 1 3
              HM He Hall eq_refl Hr Hf)
    as (batches & s & Hp & _ & Hrun & Hruns & _).
  exists batches, s. repeat split; assumption.
Defined.
